(** * One-sample z-test notebook ([index.ipynb])

    The notebook evaluates four expressions on hard-coded scalars:

      cell 1   z = (x_bar - mu)/(sigma/sqrt(n))
      cell 3   two [plt.fill_between] calls over [np.arange] ranges
      cell 5   stats.norm.cdf(z)
      cell 7   pval = 1 - stats.norm.cdf(z)

    Python numbers are embedded as they are at run time: an [int] is an
    unbounded integer ([Z]) and a [float] is an IEEE-754 binary64 value
    ([spec_float] with precision 53 and maximal exponent 1024, every
    operation rounding to nearest, ties to even).  The interpreter's
    exceptions are explicit results of a small error monad.

    [np.arange] is embedded as NumPy computes a float64 range: the length
    from Python's arithmetic, the elements from the first two.

    [stats.norm.cdf] is SciPy's routine: the notebook only calls it.  What
    the notebook does with its result is embedded from the code; the
    function itself is the standard normal distribution function of the
    specification, modelled over the real numbers. *)

From Stdlib Require Import ZArith Bool List String Lia.
From Stdlib Require Import Reals Lra.
From Stdlib Require Import Floats.SpecFloat.
Import ListNotations.

Local Open Scope Z_scope.

(* ================================================================== *)
(** * Python numbers and the operations the notebook uses *)
(* ================================================================== *)

Module Py.

(** The exceptions the arithmetic of cell 1 can raise. *)
Inductive exn : Type :=
| ZeroDivisionError   (* "float division by zero" *)
| ValueError          (* "math domain error" *)
| OverflowError.      (* "int too large to convert to float" *)

(** Outcome of evaluating an expression. *)
Inductive result (A : Type) : Type :=
| Ok (a : A)
| Raise (e : exn).
Arguments Ok {A} a.
Arguments Raise {A} e.

Definition bind {A B : Type} (r : result A) (k : A -> result B) : result B :=
  match r with
  | Ok a => k a
  | Raise e => Raise e
  end.

Definition raises {A : Type} (r : result A) : bool :=
  match r with
  | Ok _ => false
  | Raise _ => true
  end.

(** A Python number: [int] or [float]. *)
Inductive value : Type :=
| PyInt (i : Z)
| PyFloat (f : spec_float).

(** ** binary64 *)

Definition prec : Z := 53.
Definition emax : Z := 1024.

Definition fsub : spec_float -> spec_float -> spec_float := SFsub prec emax.
Definition fdiv : spec_float -> spec_float -> spec_float := SFdiv prec emax.
Definition fsqrt : spec_float -> spec_float := SFsqrt prec emax.

Definition is_nan (f : spec_float) : bool :=
  match f with S754_nan => true | _ => false end.

Definition is_inf (f : spec_float) : bool :=
  match f with S754_infinity _ => true | _ => false end.

Definition is_finite (f : spec_float) : bool :=
  match f with S754_zero _ | S754_finite _ _ _ => true | _ => false end.

(** The C test [b == 0.0]: true of both signed zeros, false of NaN. *)
Definition is_zero (f : spec_float) : bool :=
  match f with S754_zero _ => true | _ => false end.

(** ** Conversion of an operand to a C double

    [PyLong_AsDouble] rounds an [int] to the nearest double, ties to
    even, and raises [OverflowError] when the rounded value does not
    fit; a [float] is taken as it is. *)
Definition round_int (i : Z) : spec_float :=
  binary_normalize prec emax i 0 false.

Definition int_to_float (i : Z) : result spec_float :=
  let f := round_int i in
  if is_inf f then Raise OverflowError else Ok f.

Definition as_double (v : value) : result spec_float :=
  match v with
  | PyInt i => int_to_float i
  | PyFloat f => Ok f
  end.

(** ** [a - b]

    Two ints subtract exactly; otherwise both operands are converted
    (left first) and subtracted as doubles. *)
Definition sub (a b : value) : result value :=
  match a, b with
  | PyInt x, PyInt y => Ok (PyInt (x - y))
  | _, _ =>
      bind (as_double a) (fun fa =>
      bind (as_double b) (fun fb =>
      Ok (PyFloat (fsub fa fb))))
  end.

(** ** [a / b] with a float divisor ([float_div])

    Both divisions of cell 1 have a float on the right.  The left
    operand is converted first; a zero divisor (of either sign)
    raises [ZeroDivisionError]; otherwise the quotient is the IEEE
    one, so it may be infinite or NaN without any exception. *)
Definition truediv (a : value) (b : spec_float) : result spec_float :=
  bind (as_double a) (fun fa =>
  if is_zero b then Raise ZeroDivisionError else Ok (fdiv fa b)).

End Py.

Import Py.

(** The [math] module: the notebook imports [sqrt] from it. *)
Module math.

(** [math.sqrt(x)] ([math_1] with [can_overflow = 0]): the argument is
    converted to a double and the C [sqrt] applied; a NaN result for a
    non-NaN argument, or an infinite result for a finite argument,
    raises [ValueError]. *)
Definition sqrt (x : value) : result spec_float :=
  bind (as_double x) (fun fx =>
  let r := fsqrt fx in
  if is_nan r && negb (is_nan fx) then Raise ValueError
  else if is_inf r && is_finite fx then Raise ValueError
  else Ok r).

End math.

Notation "x <- c1 ;; c2" := (Py.bind c1 (fun x => c2))
  (at level 61, c1 at next level, right associativity).

(* ================================================================== *)
(** * Cell 1: the z-statistic *)
(* ================================================================== *)

Definition x_bar : value := PyInt 103. (* sample mean *)
Definition n : value := PyInt 40.      (* number of students *)
Definition sigma : value := PyInt 16.  (* sd of population *)
Definition mu : value := PyInt 100.    (* Population mean *)

(** The expression [(x_bar - mu)/(sigma/sqrt(n))] as a function of its four
    variables, evaluated in Python's order: the left operand [x_bar - mu]
    first, then [sqrt(n)], then the inner and the outer division. *)
Definition z_statistic (x_bar mu sigma n : value) : result spec_float :=
  d <- Py.sub x_bar mu ;;
  s <- math.sqrt n ;;
  q <- Py.truediv sigma s ;;
  Py.truediv d q.

Definition z : result spec_float := z_statistic x_bar mu sigma n.

(** The double printed as [1.1858541225631423]. *)
Definition z_out : spec_float := S754_finite false 5340612184491134 (-52).

(** ** Sign tests and negation of a Python number *)

Definition value_is_zero (v : value) : bool :=
  match v with
  | PyInt i => i =? 0
  | PyFloat f => is_zero f
  end.

(** [v <= 0] as Python decides it; false of NaN. *)
Definition value_le_zero (v : value) : bool :=
  match v with
  | PyInt i => i <=? 0
  | PyFloat f => SFleb f (S754_zero false)
  end.

Definition value_is_nan (v : value) : bool :=
  match v with
  | PyInt _ => false
  | PyFloat f => is_nan f
  end.

(** Unary minus. *)
Definition value_neg (v : value) : value :=
  match v with
  | PyInt i => PyInt (- i)
  | PyFloat f => PyFloat (SFopp f)
  end.

Definition result_map {A B : Type} (g : A -> B) (r : result A) : result B :=
  match r with
  | Ok a => Ok (g a)
  | Raise e => Raise e
  end.

(** ** The exact real number a double stands for *)

Definition bpow2 (e : Z) : R :=
  match e with
  | Z0 => 1%R
  | Zpos p => IZR (Z.pow_pos 2 p)
  | Zneg p => (/ IZR (Z.pow_pos 2 p))%R
  end.

Definition F2R (f : spec_float) : R :=
  match f with
  | S754_finite s m e => (IZR (cond_Zopp s (Zpos m)) * bpow2 e)%R
  | _ => 0%R
  end.

(** Half a unit in the last place of a double with exponent [e]. *)
Definition half_ulp (e : Z) : R := (/ 2 * bpow2 e)%R.

(* ================================================================== *)
(** * Cell 3: the shaded regions of the plot *)
(* ================================================================== *)

(** The float literals [1.19] and [0.01]. *)
Definition lit_1_19 : spec_float := S754_finite false 5359283556570890 (-52).
Definition lit_0_01 : spec_float := S754_finite false 5764607523034235 (-59).

(** NumPy, as far as the [np.arange] calls of cell 3 use it. *)
Module np.

Definition fadd : spec_float -> spec_float -> spec_float := SFadd prec emax.
Definition fmul : spec_float -> spec_float -> spec_float := SFmul prec emax.

(** What a call [np.arange(start, stop, step)] comes to. *)
Inductive outcome : Type :=
| Values (xs : list spec_float)  (* the float64 array that is returned *)
| Error (e : exn)                (* an exception of Python's arithmetic *)
| Irregular.                     (* a length NumPy does not take, see [arange] *)

(** The C [ceil] of a double, as an integer; NaN and the infinities have
    none. *)
Definition ceil (f : spec_float) : option Z :=
  match f with
  | S754_zero _ => Some 0
  | S754_finite s m e =>
      Some match e with
           | Z.neg p => - ((- cond_Zopp s (Z.pos m)) / 2 ^ Z.pos p)
           | _ => cond_Zopp s (Z.pos m) * 2 ^ e
           end
  | _ => None
  end.

(** [DOUBLE_fill]: from index 2 on the elements are [start + i*delta]; the
    index is converted to a double, and the product and the sum are each
    rounded.  [fill x0 delta i count] is the elements of indices
    [i, ..., i + count - 1]. *)
Fixpoint fill (x0 delta : spec_float) (i : Z) (count : nat)
  : list spec_float :=
  match count with
  | O => []
  | S c => fadd x0 (fmul (round_int i) delta) :: fill x0 delta (i + 1) c
  end.

(** [np.arange(start, stop, step)] with a float [step], which makes the
    array float64 ([PyArray_ArangeObj]).  The length is the ceiling of the
    Python quotient [(stop - start)/step]; a length [<= 0] gives the empty
    array.  The first element is [start], the second one the Python sum
    [start + step], and the others are filled in from these two.

    [Irregular] stands for the calls whose quotient is NaN or infinite, is
    a zero although [stop - start] is not (the quotient underflows, or the
    step is infinite), or is beyond what an array can hold (below [-2^63],
    or [2^60] elements and more): NumPy then raises, or returns an array of
    0 or 1 element, not in the same way in all its versions.  Memory is not
    bounded otherwise. *)
Definition arange (start stop : value) (step : spec_float) : outcome :=
  match Py.sub stop start with
  | Raise e => Error e
  | Ok next =>
      match Py.truediv next step with
      | Raise e => Error e
      | Ok val =>
          match ceil val with
          | None => Irregular
          | Some len =>
              if is_zero val && negb (value_is_zero next) then Irregular
              else if (len <? - 2 ^ 63) || (2 ^ 60 <=? len) then Irregular
              else if len <=? 0 then Values []
              else
                match as_double start with
                | Raise e => Error e
                | Ok x0 =>
                    let x1 := fadd x0 step in
                    if len =? 1 then Values [x0]
                    else Values (x0 :: x1
                                 :: fill x0 (fsub x1 x0) 2 (Z.to_nat (len - 2)))
                end
          end
      end
  end.

End np.

(** One [plt.fill_between(x=..., y1=stats.norm.pdf(x), ...)] call: the
    area between the curve [y1] and the x axis is filled over the
    abscissas [x]. *)
Record fill_between : Type := mk_fill_between {
  fb_x : np.outcome;
  fb_facecolor : string;
  fb_label : string
}.

Definition area_below : fill_between :=
  mk_fill_between
    (np.arange (PyInt (-4)) (PyFloat lit_1_19) lit_0_01)
    "red" "Area below z-statistic".

Definition area_above : fill_between :=
  mk_fill_between
    (np.arange (PyFloat lit_1_19) (PyInt 4) lit_0_01)
    "blue" "Area above z-statistic".

(** A filled region spans from its first abscissa to its last one. *)
Definition left_end (f : fill_between) : option spec_float :=
  match fb_x f with
  | np.Values (x :: _) => Some x
  | _ => None
  end.

Definition right_end (f : fill_between) : option spec_float :=
  match fb_x f with
  | np.Values xs => last (map Some xs) None
  | _ => None
  end.

(* ================================================================== *)
(** * Cells 5 and 7: the cumulative probability and the p-value *)
(* ================================================================== *)

(** Cell 5 is the call [stats.norm.cdf(z)]; the notebook records what it
    returned: the double printed as [0.8821600432854813]. *)
Definition cdf_out : spec_float := S754_finite false 7945791284443268 (-53).

(** Cell 7, [pval = 1 - stats.norm.cdf(z)], as a function of what the call
    returns. *)
Definition pval (cdf_z : spec_float) : result value :=
  Py.sub (PyInt 1) (PyFloat cdf_z).

(** The double printed as [0.11783995671451875]. *)
Definition pval_out : spec_float := S754_finite false 8491263762381792 (-56).

(** The double [1.0], which the int [1] of cell 7 converts to. *)
Definition one : spec_float := S754_finite false 4503599627370496 (-52).

(** The double [0.5]. *)
Definition half : spec_float := S754_finite false 4503599627370496 (-53).

(* ================================================================== *)
(** * Statements that do not hold of the notebook *)
(* ================================================================== *)

(** "If sigma is 0 or n is 0 the computation raises an error rather than
    returning a numeric result, NaN or Infinity." *)
Definition raises_on_zero : Prop :=
  forall xb m sg k : value,
    value_is_zero sg = true \/ value_is_zero k = true ->
    raises (z_statistic xb m sg k) = true.

(** "The evaluator fails whenever sigma <= 0 or n <= 0." *)
Definition fails_on_nonpositive : Prop :=
  forall xb m sg k : value,
    value_le_zero sg = true \/ value_le_zero k = true ->
    raises (z_statistic xb m sg k) = true.

(** "The boundary between the two shaded regions is the z value computed by
    the evaluator."  A boundary between the regions is where the red one
    ends and the blue one starts; the statement is taken in its weakest
    form, that the computed z is at least one of the two. *)
Definition regions_meet_at_z : Prop :=
  exists zv : spec_float,
    z = Ok zv
    /\ (right_end area_below = Some zv \/ left_end area_above = Some zv).

(* ================================================================== *)
(** * Shape of a rounded value *)
(* ================================================================== *)

(** [f] is a zero, a finite number or an infinity of sign [sx]; in
    particular it is not NaN. *)
Definition signed_as (sx : bool) (f : spec_float) : Prop :=
  match f with
  | S754_zero s | S754_infinity s | S754_finite s _ _ => s = sx
  | S754_nan => False
  end.

(** [f] is a finite non-zero double of sign [sx] whose magnitude (the
    exponent of the binade above it) lies in [lo, hi]. *)
Definition finite_in (sx : bool) (lo hi : Z) (f : spec_float) : Prop :=
  exists (m : positive) (e : Z),
    f = S754_finite sx m e /\ lo <= Z.pos (digits2_pos m) + e <= hi.

(* ================================================================== *)
(** * The standard normal distribution function *)
(* ================================================================== *)

Local Open Scope R_scope.

(** ** The integral of a continuous function *)

Section Integral.

Variable f : R -> R.
Hypothesis f_cont : continuity f.

Lemma cont_integrable (a b : R) : Riemann_integrable f a b.
Proof.
  destruct (Rle_dec a b) as [H | H].
  - apply continuity_implies_RiemannInt; [exact H | intros; apply f_cont].
  - apply RiemannInt_P1, continuity_implies_RiemannInt;
      [lra | intros; apply f_cont].
Qed.

(** The Riemann integral of [f] from [a] to [b]. *)
Definition integral (a b : R) : R := RiemannInt (cont_integrable a b).

End Integral.

(** ** [erf] and [Phi] *)

(** The integrand of the error function. *)
Definition gauss (t : R) : R := exp (- (t * t)).

Lemma gauss_continuity : continuity gauss.
Proof. unfold gauss; reg. Qed.

(** Modelled from the spec: the error function that the formula for the
    distribution function refers to; SciPy's implementation is not part of
    the repository.  [erf x] is 2 / sqrt(pi) times the integral of
    [exp (- t^2)] from 0 to [x]. *)
Definition erf (x : R) : R :=
  2 / sqrt PI * integral gauss gauss_continuity 0 x.

(** Modelled from the spec: [stats.norm.cdf], the standard normal
    cumulative distribution function, which the notebook calls and SciPy
    implements outside the repository.  The specification gives it as
    [Phi(z) = 0.5 * (1 + erf(z / sqrt 2))]. *)
Definition Phi (z : R) : R := 0.5 * (1 + erf (z / sqrt 2)).

(** Modelled from the spec: the right-tailed p-value [p = 1 - Phi(z)]. *)
Definition p_value (z : R) : R := 1 - Phi z.

(** ** Functions used in the proofs *)

(** The integral in [erf], without its factor. *)
Definition Egauss (x : R) : R := integral gauss gauss_continuity 0 x.

(** The integrand of Laplace's identity and its derivative in [u]. *)
Definition kern (u t : R) : R := exp (- (u * (1 + t * t))) / (1 + t * t).
Definition dkern (u t : R) : R := exp (- (u * (1 + t * t))).

Lemma kern_continuity (u : R) : continuity (kern u).
Proof. unfold kern; reg. intros; nra. Qed.

Lemma dkern_continuity (u : R) : continuity (dkern u).
Proof. unfold dkern; reg. Qed.

Definition Gt (u : R) : R := integral (kern u) (kern_continuity u) 0 1.
Definition Bt (u : R) : R := integral (dkern u) (dkern_continuity u) 0 1.

(** The remainder of the first-order expansion of [kern] in [u]. *)
Definition kern_rem (u h t : R) : R :=
  kern (u + h) t + -1 * kern u t + h * dkern u t.

(** Terms and partial sums of the series of [exp (- v)]. *)
Fixpoint eterm (k : nat) (v : R) : R :=
  match k with
  | O => 1
  | S j => eterm j v * (- v) / INR (S j)
  end.

Fixpoint esum (k : nat) (v : R) : R :=
  match k with
  | O => 1
  | S j => esum j v + eterm (S j) v
  end.

(** The standard normal density without its factor, and its integral
    from 0. *)
Definition bell (s : R) : R := exp (- (s * s / 2)).

Lemma bell_continuity : continuity bell.
Proof. unfold bell; reg. Qed.

Definition W (x : R) : R := integral bell bell_continuity 0 x.

(** Term-by-term antiderivative of [esum k (s * s / 2)]. *)
Definition wterm (k : nat) (s : R) : R :=
  eterm k (s * s / 2) * s / (2 * INR k + 1).

Fixpoint wsum (k : nat) (s : R) : R :=
  match k with
  | O => wterm 0 s
  | S j => wsum j s + wterm (S j) s
  end.

Local Close Scope R_scope.

(* ================================================================== *)
(** * Properties of the arithmetic *)
(* ================================================================== *)

Lemma iter_pos_invariant {A : Type} (P : A -> Prop) (f : A -> A) :
  (forall a, P a -> P (f a)) ->
  forall p a, P a -> P (iter_pos f p a).
Proof.
  intros Hf p; induction p as [p IH | p IH |]; intros a Ha; simpl; auto.
Qed.

Lemma shr_1_nonneg (mrs : shr_record) :
  0 <= shr_m mrs -> 0 <= shr_m (shr_1 mrs).
Proof.
  destruct mrs as [m r s]; simpl.
  destruct m as [| [p | p |] | [p | p |]]; simpl; lia.
Qed.

Lemma shr_nonneg (mrs : shr_record) (e k : Z) :
  0 <= shr_m mrs -> 0 <= shr_m (fst (shr mrs e k)).
Proof.
  intros H; destruct k as [| p | p]; simpl; trivial.
  apply (iter_pos_invariant (fun r => 0 <= shr_m r)); trivial.
  exact shr_1_nonneg.
Qed.

Lemma shr_fexp_nonneg (m e : Z) (l : location) :
  0 <= m -> 0 <= shr_m (fst (shr_fexp prec emax m e l)).
Proof.
  intros H; unfold shr_fexp; apply shr_nonneg.
  destruct l as [| []]; exact H.
Qed.

Lemma round_nearest_even_nonneg (m : Z) (l : location) :
  0 <= m -> 0 <= round_nearest_even m l.
Proof.
  intros H; destruct l as [| []]; simpl; trivial; try lia.
  destruct (Z.even m); lia.
Qed.

(** Rounding a non-negative mantissa never yields NaN, and keeps the
    sign it was given. *)
Lemma binary_round_aux_signed (sx : bool) (mx ex : Z) (lx : location) :
  0 <= mx -> signed_as sx (binary_round_aux prec emax sx mx ex lx).
Proof.
  intros H; unfold binary_round_aux.
  pose proof (shr_fexp_nonneg mx ex lx H) as H1.
  destruct (shr_fexp prec emax mx ex lx) as [mrs' e']; simpl in H1.
  pose proof (shr_fexp_nonneg _ e' loc_Exact
                (round_nearest_even_nonneg _ (loc_of_shr_record mrs') H1)) as H2.
  destruct (shr_fexp prec emax _ e' loc_Exact) as [mrs'' e'']; simpl in H2.
  destruct (shr_m mrs'') as [| m | m]; simpl; trivial; try lia.
  match goal with |- context [if ?c then _ else _] => destruct c end;
    reflexivity.
Qed.

Lemma binary_round_signed (sx : bool) (m : positive) (e : Z) :
  signed_as sx (binary_round prec emax sx m e).
Proof.
  unfold binary_round.
  destruct (shl_align m e _) as [mz ez].
  apply binary_round_aux_signed; lia.
Qed.

(** The sign given to the rounding only labels its result. *)
Lemma binary_round_aux_opp (sx : bool) (mx ex : Z) (lx : location) :
  binary_round_aux prec emax (negb sx) mx ex lx
  = SFopp (binary_round_aux prec emax sx mx ex lx).
Proof.
  unfold binary_round_aux.
  destruct (shr_fexp prec emax mx ex lx) as [mrs' e'].
  destruct (shr_fexp prec emax _ e' loc_Exact) as [mrs'' e''].
  destruct (shr_m mrs''); trivial.
  match goal with |- context [if ?c then _ else _] => destruct c end;
    reflexivity.
Qed.

Lemma binary_round_opp (sx : bool) (m : positive) (e : Z) :
  binary_round prec emax (negb sx) m e = SFopp (binary_round prec emax sx m e).
Proof.
  unfold binary_round.
  destruct (shl_align m e _) as [mz ez].
  apply binary_round_aux_opp.
Qed.

(** Negating the dividend or the divisor negates the quotient. *)
Lemma fdiv_opp_l (a b : spec_float) : fdiv (SFopp a) b = SFopp (fdiv a b).
Proof.
  destruct a as [sa | sa | | sa ma ea], b as [sb | sb | | sb mb eb];
    try reflexivity; simpl;
    try (destruct sa, sb; reflexivity).
  unfold fdiv, SFdiv.
  destruct (SFdiv_core_binary prec emax (Z.pos ma) ea (Z.pos mb) eb) as [[mz ez] lz].
  rewrite <- binary_round_aux_opp. destruct sa, sb; reflexivity.
Qed.

Lemma fdiv_opp_r (a b : spec_float) : fdiv a (SFopp b) = SFopp (fdiv a b).
Proof.
  destruct a as [sa | sa | | sa ma ea], b as [sb | sb | | sb mb eb];
    try reflexivity; simpl;
    try (destruct sa, sb; reflexivity).
  unfold fdiv, SFdiv.
  destruct (SFdiv_core_binary prec emax (Z.pos ma) ea (Z.pos mb) eb) as [[mz ez] lz].
  rewrite <- binary_round_aux_opp. destruct sa, sb; reflexivity.
Qed.

Lemma is_zero_opp (f : spec_float) : is_zero (SFopp f) = is_zero f.
Proof. destruct f; reflexivity. Qed.

(** A zero dividend over a divisor that is neither zero nor NaN is a zero. *)
Lemma fdiv_zero_l (a b : spec_float) :
  is_zero a = true -> is_zero b = false -> is_nan b = false ->
  is_zero (fdiv a b) = true.
Proof.
  destruct a, b; simpl; intros; try discriminate; reflexivity.
Qed.

(** The double an int converts to carries the sign of the int and is not
    NaN. *)
Lemma int_to_float_signed (i : Z) (f : spec_float) :
  int_to_float i = Ok f -> signed_as (i <? 0) f.
Proof.
  unfold int_to_float.
  destruct i as [| p | p]; simpl.
  - intros [= <-]; reflexivity.
  - pose proof (binary_round_signed false p 0) as H.
    destruct (binary_round prec emax false p 0); simpl in *;
      intros [= <-]; simpl; assumption.
  - pose proof (binary_round_signed true p 0) as H.
    destruct (binary_round prec emax true p 0); simpl in *;
      intros [= <-]; simpl; assumption.
Qed.

Lemma int_to_float_zero : int_to_float 0 = Ok (S754_zero false).
Proof. reflexivity. Qed.

Lemma int_to_float_opp (i : Z) :
  i <> 0 -> int_to_float (- i) = result_map SFopp (int_to_float i).
Proof.
  intros Hi; unfold int_to_float.
  destruct i as [| p | p]; [contradiction | |]; simpl.
  - rewrite (binary_round_opp false).
    destruct (binary_round prec emax false p 0); reflexivity.
  - change false with (negb true).
    rewrite (binary_round_opp true).
    destruct (binary_round prec emax true p 0) as [[] | [] | | [] ? ?]; reflexivity.
Qed.

(* ================================================================== *)
(** * Properties of the z-statistic *)
(* ================================================================== *)

(** Dividing by a zero raises, whatever the dividend. *)
Lemma truediv_by_zero (a : value) (b : spec_float) :
  is_zero b = true -> raises (truediv a b) = true.
Proof.
  intros Hb; unfold truediv.
  destruct (as_double a) as [fa | e]; simpl; [rewrite Hb |]; reflexivity.
Qed.

(** What [math.sqrt] returns for a non-NaN argument is not NaN. *)
Lemma sqrt_not_nan (x : value) (s : spec_float) :
  value_is_nan x = false -> math.sqrt x = Ok s -> is_nan s = false.
Proof.
  unfold math.sqrt; intros Hx.
  destruct (as_double x) as [fx | e] eqn:Hfx; simpl; [| discriminate].
  assert (Hn : is_nan fx = false).
  { destruct x as [i | f]; simpl in *.
    - pose proof (int_to_float_signed _ _ Hfx) as H.
      destruct fx; simpl in *; trivial; contradiction.
    - injection Hfx as <-; exact Hx. }
  rewrite Hn; simpl; rewrite andb_true_r.
  destruct (is_nan (fsqrt fx)) eqn:Hr; simpl; [discriminate |].
  destruct (is_inf (fsqrt fx) && is_finite fx); [discriminate |].
  intros [= <-]; exact Hr.
Qed.

(** [math.sqrt] of a number [<= 0] either raises or returns a zero. *)
Lemma sqrt_nonpositive (x : value) :
  value_le_zero x = true ->
  match math.sqrt x with
  | Ok s => is_zero s = true
  | Raise _ => True
  end.
Proof.
  unfold math.sqrt; intros Hx.
  destruct (as_double x) as [fx | e] eqn:Hfx; simpl; trivial.
  assert (H : SFleb fx (S754_zero false) = true).
  { destruct x as [i | f]; simpl in *.
    - pose proof (int_to_float_signed _ _ Hfx) as H.
      destruct (Z.eq_dec i 0) as [-> | Hi].
      + rewrite int_to_float_zero in Hfx; injection Hfx as <-; reflexivity.
      + apply Z.leb_le in Hx.
        replace (i <? 0) with true in H by (symmetry; apply Z.ltb_lt; lia).
        destruct fx as [s0 | s0 | | s0 m e]; simpl in H;
          try contradiction; subst s0; reflexivity.
    - injection Hfx as <-; exact Hx. }
  destruct fx as [s0 | [] | | [] m e]; simpl in *; try discriminate; trivial.
Qed.

(** The value of cell 1's expression when nothing raises: the IEEE
    quotient of the converted difference by the IEEE standard error. *)
Lemma z_statistic_formula (x_bar mu sigma n : value) (r : spec_float) :
  z_statistic x_bar mu sigma n = Ok r ->
  exists (d : value) (fd fs fn : spec_float),
    Py.sub x_bar mu = Ok d /\ as_double d = Ok fd /\
    as_double sigma = Ok fs /\ as_double n = Ok fn /\
    r = fdiv fd (fdiv fs (fsqrt fn)).
Proof.
  unfold z_statistic, math.sqrt, truediv.
  destruct (Py.sub x_bar mu) as [d | e]; simpl; [| discriminate].
  destruct (as_double n) as [fn | e]; simpl; [| discriminate].
  destruct (is_nan (fsqrt fn) && negb (is_nan fn)); [discriminate |].
  destruct (is_inf (fsqrt fn) && is_finite fn); [discriminate |]; simpl.
  destruct (as_double sigma) as [fs | e]; simpl; [| discriminate].
  destruct (is_zero (fsqrt fn)); [discriminate |]; simpl.
  destruct (as_double d) as [fd | e] eqn:Hd; simpl; [| discriminate].
  destruct (is_zero (fdiv fs (fsqrt fn))); [discriminate |].
  intros [= <-]; exists d, fd, fs, fn; repeat split; trivial.
Qed.

(** A non-positive sample size makes the evaluation raise. *)
Lemma z_statistic_n_nonpositive (x_bar mu sigma n : value) :
  value_le_zero n = true -> raises (z_statistic x_bar mu sigma n) = true.
Proof.
  intros Hn; unfold z_statistic.
  destruct (Py.sub x_bar mu) as [d | e]; simpl; trivial.
  pose proof (sqrt_nonpositive n Hn) as Hs.
  destruct (math.sqrt n) as [s | e]; simpl; trivial.
  pose proof (truediv_by_zero sigma s Hs) as Hq.
  destruct (truediv sigma s) as [q | e]; simpl; trivial; discriminate.
Qed.

(** A zero standard deviation makes the evaluation raise, for every
    sample size that is a number. *)
Lemma z_statistic_sigma_zero (x_bar mu sigma n : value) :
  value_is_zero sigma = true -> value_is_nan n = false ->
  raises (z_statistic x_bar mu sigma n) = true.
Proof.
  intros Hsig Hn; unfold z_statistic.
  destruct (Py.sub x_bar mu) as [d | e]; simpl; trivial.
  pose proof (sqrt_not_nan n) as Hs.
  destruct (math.sqrt n) as [s | e]; simpl; trivial.
  specialize (Hs s Hn eq_refl).
  assert (Hq : match truediv sigma s with
               | Ok q => is_zero q = true
               | Raise _ => True
               end).
  { unfold truediv.
    assert (Hf : exists f0, as_double sigma = Ok f0 /\ is_zero f0 = true).
    { destruct sigma as [i | f]; simpl in *.
      - apply Z.eqb_eq in Hsig; subst i.
        exists (S754_zero false); split; reflexivity.
      - exists f; split; trivial. }
    destruct Hf as (f0 & -> & Hf0); simpl.
    destruct (is_zero s) eqn:Hz; trivial.
    apply fdiv_zero_l; assumption. }
  destruct (truediv sigma s) as [q | e]; simpl; trivial.
  apply truediv_by_zero; exact Hq.
Qed.

(** Negating the standard deviation negates the z-statistic and changes
    nothing else: the same inputs raise, with the same exception. *)
Lemma z_statistic_neg_sigma (x_bar mu sigma n : value) :
  z_statistic x_bar mu (value_neg sigma) n
  = result_map SFopp (z_statistic x_bar mu sigma n).
Proof.
  unfold z_statistic.
  destruct (Py.sub x_bar mu) as [d | e]; simpl; trivial.
  destruct (math.sqrt n) as [s | e]; simpl; trivial.
  unfold truediv.
  assert (Hs : (exists fs, as_double sigma = Ok fs
                 /\ as_double (value_neg sigma) = Ok (SFopp fs))
               \/ (sigma = PyInt 0)
               \/ (exists e, as_double sigma = Raise e
                    /\ as_double (value_neg sigma) = Raise e)).
  { destruct sigma as [i | f]; simpl.
    - destruct (Z.eq_dec i 0) as [-> | Hi]; [right; left; reflexivity |].
      rewrite (int_to_float_opp i Hi).
      destruct (int_to_float i) as [fs | e]; simpl.
      + left; exists fs; split; reflexivity.
      + right; right; exists e; split; reflexivity.
    - left; exists f; split; reflexivity. }
  destruct Hs as [(fs & -> & ->) | [-> | (e & -> & ->)]]; simpl; trivial.
  - destruct (is_zero s) eqn:Hz; simpl; trivial.
    rewrite fdiv_opp_l.
    destruct (as_double d) as [fd | e]; simpl; trivial.
    rewrite is_zero_opp.
    destruct (is_zero (fdiv fs s)); simpl; trivial.
    rewrite fdiv_opp_r; reflexivity.
  - destruct (is_zero s) eqn:Hz; simpl; trivial.
    destruct (as_double d) as [fd | e]; simpl; trivial.
    destruct s; simpl; trivial; destruct fd; reflexivity.
Qed.

Lemma value_is_zero_le (v : value) :
  value_is_zero v = true -> value_le_zero v = true.
Proof.
  destruct v as [i | f]; simpl.
  - intros H; apply Z.eqb_eq in H; subst i; reflexivity.
  - destruct f; simpl; try discriminate; trivial.
Qed.

Lemma raises_true {A : Type} (r : result A) :
  raises r = true -> exists e, r = Raise e.
Proof. destruct r as [a | e]; [discriminate | exists e; reflexivity]. Qed.

(** A positive real lies strictly between two bounds when its square does. *)
Lemma sqrt_between (a b x : R) :
  (0 <= a -> 0 <= b -> a * a < x -> x < b * b -> a < R_sqrt.sqrt x < b)%R.
Proof.
  intros Ha Hb H1 H2.
  assert (Hx : (0 <= x)%R) by nra.
  split.
  - rewrite <- (sqrt_square a Ha). apply sqrt_lt_1; nra.
  - rewrite <- (sqrt_square b Hb). apply sqrt_lt_1; nra.
Qed.

Ltac unfold_doubles :=
  unfold half_ulp, F2R, bpow2, cond_Zopp;
  repeat match goal with
  | |- context [Z.pow_pos 2 ?p] =>
      let v := eval vm_compute in (Z.pow_pos 2 p) in
      change (Z.pow_pos 2 p) with v
  end.

(** With a zero standard deviation or a zero sample size, the sample size
    being a number, the exception is the division's as soon as the steps
    before the division by zero succeed. *)
Lemma z_statistic_zero_division (xb m sg k d : value) (fd fs s : spec_float) :
  value_is_zero sg = true \/ value_is_zero k = true ->
  value_is_nan k = false ->
  Py.sub xb m = Ok d -> as_double d = Ok fd ->
  as_double sg = Ok fs -> math.sqrt k = Ok s ->
  z_statistic xb m sg k = Raise ZeroDivisionError.
Proof.
  intros Hz Hnan Hsub Hd Hsg Hsqrt.
  unfold z_statistic. rewrite Hsub. cbn [bind]. rewrite Hsqrt. cbn [bind].
  unfold truediv at 1. rewrite Hsg. cbn [bind].
  destruct (is_zero s) eqn:Hs; [reflexivity |]. cbn [bind].
  assert (Hq : is_zero (fdiv fs s) = true).
  { destruct Hz as [Hz | Hz].
    - apply fdiv_zero_l; [| exact Hs | exact (sqrt_not_nan k s Hnan Hsqrt)].
      destruct sg as [i | f]; cbn [value_is_zero as_double] in Hz, Hsg.
      + apply Z.eqb_eq in Hz. subst i. rewrite int_to_float_zero in Hsg.
        injection Hsg as <-. reflexivity.
      + injection Hsg as <-. exact Hz.
    - pose proof (sqrt_nonpositive k (value_is_zero_le k Hz)) as H.
      rewrite Hsqrt, Hs in H. discriminate. }
  unfold truediv. rewrite Hd. cbn [bind]. rewrite Hq. reflexivity.
Qed.

(** With a zero standard deviation and a NaN sample size nothing raises:
    NaN goes through the square root and both divisions. *)
Lemma z_statistic_sigma_zero_nan (xb m sg k d : value) (fd : spec_float) :
  value_is_zero sg = true -> value_is_nan k = true ->
  Py.sub xb m = Ok d -> as_double d = Ok fd ->
  z_statistic xb m sg k = Ok S754_nan.
Proof.
  intros Hz Hnan Hsub Hd.
  destruct k as [i | f]; cbn [value_is_nan] in Hnan; [discriminate |].
  destruct f; try discriminate.
  assert (Hsg : exists fs, as_double sg = Ok fs /\ is_zero fs = true).
  { destruct sg as [i | f]; cbn [value_is_zero as_double] in *.
    - apply Z.eqb_eq in Hz. subst i. exists (S754_zero false).
      split; reflexivity.
    - exists f. split; [reflexivity | exact Hz]. }
  destruct Hsg as (fs & Hsg & Hfs).
  unfold z_statistic. rewrite Hsub. cbn [bind].
  change (math.sqrt (PyFloat S754_nan)) with (Ok S754_nan). cbn [bind].
  unfold truediv at 1. rewrite Hsg. cbn [bind is_zero].
  assert (Hq : fdiv fs S754_nan = S754_nan) by (destruct fs; reflexivity).
  rewrite Hq. cbn [bind]. unfold truediv. rewrite Hd. cbn [bind is_zero].
  destruct fd; reflexivity.
Qed.

(** With the notebook's other inputs the exception is the division's. *)
Example zero_sigma_is_zero_division :
  z_statistic x_bar mu (PyInt 0) n = Raise ZeroDivisionError.
Proof. vm_compute; reflexivity. Qed.

Example zero_n_is_zero_division :
  z_statistic x_bar mu sigma (PyInt 0) = Raise ZeroDivisionError.
Proof. vm_compute; reflexivity. Qed.

Example negative_n_is_domain_error :
  z_statistic x_bar mu sigma (PyInt (-40)) = Raise ValueError.
Proof. vm_compute; reflexivity. Qed.

(** NaN is not a number: [math.sqrt] passes it through and every later
    operation yields NaN, whatever the standard deviation. *)
Example nan_n_is_passed_through :
  z_statistic x_bar mu (PyInt 0) (PyFloat S754_nan) = Ok S754_nan.
Proof. vm_compute; reflexivity. Qed.

Example negative_sigma_is_negated :
  z_statistic x_bar mu (PyInt (-16)) n = Ok (SFopp z_out).
Proof. vm_compute; reflexivity. Qed.

(** C3, as stated, fails: with sigma = 0 and n = NaN the computation raises
    nothing and returns NaN.  Where it does raise, as with sigma = 0 and the
    notebook's n, the error is the division's [ZeroDivisionError]: nothing
    validates the inputs. *)
Lemma zero_sigma_nan_n_returns_nan :
  z_statistic x_bar mu (PyInt 0) (PyFloat S754_nan) = Ok S754_nan
  /\ z_statistic x_bar mu (PyInt 0) n = Raise ZeroDivisionError
  /\ ~ raises_on_zero.
Proof.
  split; [exact nan_n_is_passed_through |].
  split; [exact zero_sigma_is_zero_division |].
  intros H.
  specialize (H x_bar mu (PyInt 0) (PyFloat S754_nan) (or_introl eq_refl)).
  rewrite nan_n_is_passed_through in H. discriminate.
Qed.

(** C3, amended: when the standard deviation is 0 or the sample size is 0,
    and the sample size is not NaN, the computation raises an exception and
    returns nothing: no number, no NaN, no infinity.  The exception is the
    arithmetic's, not a validation's: it is [ZeroDivisionError] whenever the
    steps before the division by zero succeed, that is [x_bar - mu], its
    conversion and the conversion of sigma to a double, and [sqrt(n)].
    When sigma is 0 and n is NaN, NaN is returned, provided [x_bar - mu]
    converts to a double. *)
Theorem zero_sigma_or_zero_n_raises (xb m sg k : value) :
  (value_is_zero sg = true \/ value_is_zero k = true ->
   value_is_nan k = false ->
   (exists e : exn, z_statistic xb m sg k = Raise e)
   /\ forall (d : value) (fd fs s : spec_float),
        Py.sub xb m = Ok d -> as_double d = Ok fd ->
        as_double sg = Ok fs -> math.sqrt k = Ok s ->
        z_statistic xb m sg k = Raise ZeroDivisionError)
  /\ (value_is_zero sg = true -> value_is_nan k = true ->
      forall (d : value) (fd : spec_float),
        Py.sub xb m = Ok d -> as_double d = Ok fd ->
        z_statistic xb m sg k = Ok S754_nan).
Proof.
  split.
  - intros Hz Hnan. split.
    + apply raises_true. destruct Hz as [Hs | Hk].
      * apply z_statistic_sigma_zero; assumption.
      * apply z_statistic_n_nonpositive, value_is_zero_le, Hk.
    + intros d fd fs s. apply z_statistic_zero_division; assumption.
  - intros Hz Hnan d fd. apply z_statistic_sigma_zero_nan; assumption.
Qed.

Lemma zero_sigma_or_zero_n_raises_witness :
  ((exists e : exn, z_statistic x_bar mu (PyInt 0) n = Raise e)
   /\ forall (d : value) (fd fs s : spec_float),
        Py.sub x_bar mu = Ok d -> as_double d = Ok fd ->
        as_double (PyInt 0) = Ok fs -> math.sqrt n = Ok s ->
        z_statistic x_bar mu (PyInt 0) n = Raise ZeroDivisionError)
  /\ z_statistic x_bar mu (PyInt 0) (PyFloat S754_nan) = Ok S754_nan.
Proof.
  split.
  - apply (proj1 (zero_sigma_or_zero_n_raises x_bar mu (PyInt 0) n));
      [left; reflexivity | reflexivity].
  - apply (proj2 (zero_sigma_or_zero_n_raises x_bar mu (PyInt 0)
                    (PyFloat S754_nan))
             eq_refl eq_refl (PyInt 3) (round_int 3));
      reflexivity.
Defined.

(** C4, as stated, fails twice: with sigma = -16 and the notebook's other
    inputs the evaluation returns a number, the negated z-statistic; and
    with sigma = 0 and n = NaN it returns NaN. *)
Lemma negative_sigma_returns :
  z_statistic x_bar mu (PyInt (-16)) n = Ok (SFopp z_out)
  /\ z_statistic x_bar mu (PyInt 0) (PyFloat S754_nan) = Ok S754_nan
  /\ ~ fails_on_nonpositive.
Proof.
  split; [exact negative_sigma_is_negated |].
  split; [exact nan_n_is_passed_through |].
  intros H.
  specialize (H x_bar mu (PyInt (-16)) n (or_introl eq_refl)).
  rewrite negative_sigma_is_negated in H. discriminate.
Qed.

(** C4, amended: the evaluation raises, and returns no z, for every input
    whose sample size is [<= 0], and for every input whose standard
    deviation is 0 and whose sample size is not NaN.  A strictly negative
    standard deviation is not rejected: negating sigma negates the
    z-statistic and changes nothing else, so that a negative sigma raises
    exactly when its opposite does.  With sigma = 0 and n = NaN the
    evaluation returns NaN, provided [x_bar - mu] converts to a double. *)
Theorem nonpositive_inputs (xb m sg k : value) :
  (value_le_zero k = true
   \/ (value_is_zero sg = true /\ value_is_nan k = false) ->
   raises (z_statistic xb m sg k) = true)
  /\ z_statistic xb m (value_neg sg) k
     = result_map SFopp (z_statistic xb m sg k)
  /\ (value_is_zero sg = true -> value_is_nan k = true ->
      forall (d : value) (fd : spec_float),
        Py.sub xb m = Ok d -> as_double d = Ok fd ->
        z_statistic xb m sg k = Ok S754_nan).
Proof.
  split; [| split].
  - intros [Hk | [Hs Hk]].
    + apply z_statistic_n_nonpositive, Hk.
    + apply z_statistic_sigma_zero; assumption.
  - apply z_statistic_neg_sigma.
  - intros Hz Hnan d fd. apply z_statistic_sigma_zero_nan; assumption.
Qed.

Lemma nonpositive_inputs_witness :
  raises (z_statistic x_bar mu sigma (PyInt (-40))) = true
  /\ z_statistic x_bar mu (PyInt (-16)) n = Ok (SFopp z_out)
  /\ z_statistic x_bar mu (PyInt 0) (PyFloat S754_nan) = Ok S754_nan.
Proof.
  split; [| split].
  - apply (proj1 (nonpositive_inputs x_bar mu sigma (PyInt (-40)))).
    left; reflexivity.
  - exact (proj1 (proj2 (nonpositive_inputs x_bar mu sigma n))).
  - apply (proj2 (proj2 (nonpositive_inputs x_bar mu (PyInt 0)
                           (PyFloat S754_nan)))
             eq_refl eq_refl (PyInt 3) (round_int 3));
      reflexivity.
Defined.

(** The abscissas of the two regions of cell 3. *)
Lemma shaded_abscissas :
  exists below above : list spec_float,
    fb_x area_below = np.Values below /\ fb_x area_above = np.Values above
    /\ List.length below = 519%nat /\ List.length above = 281%nat
    /\ forallb (fun x => SFltb x z_out) below = true
    /\ forallb (fun x => SFltb z_out x) above = true.
Proof.
  eexists. eexists.
  split; [vm_compute; reflexivity |].
  split; [vm_compute; reflexivity |].
  repeat split; vm_compute; reflexivity.
Qed.

(** C5, as stated, fails: the computed z is the boundary of neither region.
    The red one stops short of it, at the double printed as
    1.1799999999998896, and the blue one starts beyond it, at 1.19. *)
Lemma shaded_regions_do_not_meet_at_z :
  z = Ok z_out
  /\ right_end area_below = Some (S754_finite false 5314247560296688 (-52))
  /\ left_end area_above = Some lit_1_19
  /\ ~ regions_meet_at_z.
Proof.
  split; [vm_compute; reflexivity |].
  split; [vm_compute; reflexivity |].
  split; [vm_compute; reflexivity |].
  intros (zv & Hz & Hb).
  vm_compute in Hz, Hb.
  injection Hz as <-. destruct Hb as [Hb | Hb]; discriminate Hb.
Qed.

(** C5, amended: the density is shaded to the left and to the right of the
    computed z, but the regions do not meet at it.  Their bounds are fixed
    by the literals of cell 3.  The red region is filled over the 519
    abscissas of [np.arange(-4, 1.19, 0.01)], from -4 to the double printed
    as 1.1799999999998896 (the stop 1.19 is excluded); the blue region over
    the 281 abscissas of [np.arange(1.19, 4, 0.01)], from 1.19 to the double
    printed as 3.9900000000000024.  The literal 1.19 is the computed z
    rounded to two decimal places.  The computed z lies strictly between the
    two regions: every red abscissa is below it and every blue abscissa is
    above it. *)
Theorem shading_boundary :
  exists below above : list spec_float,
    fb_x area_below = np.Values below /\ fb_x area_above = np.Values above
    /\ List.length below = 519%nat /\ List.length above = 281%nat
    /\ left_end area_below = Some (round_int (-4))
    /\ right_end area_below = Some (S754_finite false 5314247560296688 (-52))
    /\ left_end area_above = Some lit_1_19
    /\ right_end area_above = Some (S754_finite false 8984681256604145 (-51))
    /\ Forall (fun x => SFltb x z_out = true) below
    /\ Forall (fun x => SFltb z_out x = true) above
    /\ (Rabs (F2R (S754_finite false 5314247560296688 (-52))
              - 1.1799999999998896) < half_ulp (-52))%R
    /\ (Rabs (F2R (S754_finite false 8984681256604145 (-51))
              - 3.9900000000000024) < half_ulp (-51))%R
    /\ (Rabs (F2R lit_1_19 - 1.19) < half_ulp (-52))%R
    /\ (Rabs (F2R z_out - 1.19) < 0.005)%R
    /\ (F2R (S754_finite false 5314247560296688 (-52)) < F2R z_out
        < F2R lit_1_19)%R.
Proof.
  destruct shaded_abscissas
    as (below & above & Hb & Ha & Hlb & Hla & Hfb & Hfa).
  exists below, above.
  split; [exact Hb |]. split; [exact Ha |].
  split; [exact Hlb |]. split; [exact Hla |].
  split; [vm_compute; reflexivity |].
  split; [vm_compute; reflexivity |].
  split; [vm_compute; reflexivity |].
  split; [vm_compute; reflexivity |].
  split.
  { apply Forall_forall. intros x Hx.
    exact (proj1 (forallb_forall _ _) Hfb x Hx). }
  split.
  { apply Forall_forall. intros x Hx.
    exact (proj1 (forallb_forall _ _) Hfa x Hx). }
  unfold lit_1_19, z_out; unfold_doubles.
  repeat split; try apply Rabs_def1; lra.
Qed.

(** C10: on the notebook's inputs every step of cell 1 is inside its
    domain: the difference is the int 3, 40 converts to a non-negative
    double, its square root is returned and is not zero, the standard error
    16/sqrt(40) is returned and is not zero, and the z-statistic is returned
    and is finite: no step raises. *)
Theorem hard_coded_inputs_in_domain :
  exists fn s q : spec_float,
    Py.sub x_bar mu = Ok (PyInt 3)
    /\ as_double n = Ok fn /\ SFleb (S754_zero false) fn = true
    /\ math.sqrt n = Ok s /\ is_zero s = false
    /\ truediv sigma s = Ok q /\ is_zero q = false
    /\ z = Ok z_out /\ is_finite z_out = true.
Proof.
  exists (S754_finite false 5629499534213120 (-47)),
         (S754_finite false 7120816245988179 (-50)),
         (S754_finite false 5696652996790543 (-51)).
  repeat split; vm_compute; reflexivity.
Qed.

(* ================================================================== *)
(** * Subtracting a probability from 1 *)
(* ================================================================== *)

Lemma digits2_pos_bounds (p : positive) :
  2 ^ (Z.pos (digits2_pos p) - 1) <= Z.pos p < 2 ^ Z.pos (digits2_pos p).
Proof.
  induction p as [p IH | p IH |]; simpl digits2_pos.
  - rewrite Pos2Z.inj_succ.
    replace (Z.succ (Z.pos (digits2_pos p)) - 1) with (Z.pos (digits2_pos p)) by lia.
    rewrite Z.pow_succ_r by lia.
    assert (H : 2 ^ Z.pos (digits2_pos p) = 2 * 2 ^ (Z.pos (digits2_pos p) - 1)).
    { rewrite <- Z.pow_succ_r by lia. f_equal; lia. }
    lia.
  - rewrite Pos2Z.inj_succ.
    replace (Z.succ (Z.pos (digits2_pos p)) - 1) with (Z.pos (digits2_pos p)) by lia.
    rewrite Z.pow_succ_r by lia.
    assert (H : 2 ^ Z.pos (digits2_pos p) = 2 * 2 ^ (Z.pos (digits2_pos p) - 1)).
    { rewrite <- Z.pow_succ_r by lia. f_equal; lia. }
    lia.
  - simpl; lia.
Qed.

(** The number of digits is determined by the binade. *)
Lemma digits2_pos_unique (p : positive) (d : Z) :
  2 ^ (d - 1) <= Z.pos p < 2 ^ d -> Z.pos (digits2_pos p) = d.
Proof.
  intros [Hlo Hhi].
  pose proof (digits2_pos_bounds p) as [Blo Bhi].
  set (k := Z.pos (digits2_pos p)) in *.
  assert (Hk : 0 < k) by (unfold k; lia).
  destruct (Z.lt_trichotomy k d) as [Hlt | [Heq | Hgt]]; [| exact Heq |].
  - assert (2 ^ k <= 2 ^ (d - 1)) by (apply Z.pow_le_mono_r; lia). lia.
  - assert (0 <= d).
    { destruct (Z.le_gt_cases 0 d) as [H | H]; [exact H |].
      rewrite (Z.pow_neg_r 2 d) in Hhi by lia. lia. }
    assert (2 ^ d <= 2 ^ (k - 1)) by (apply Z.pow_le_mono_r; lia). lia.
Qed.

Lemma iter_xO_value (m d : positive) :
  Z.pos (Pos.iter xO m d) = Z.pos m * 2 ^ Z.pos d.
Proof.
  revert m. induction d as [| d IH] using Pos.peano_ind; intros m.
  - simpl. lia.
  - rewrite Pos.iter_succ, Pos2Z.inj_succ, Z.pow_succ_r by lia.
    rewrite Pos2Z.inj_xO, IH. ring.
Qed.

Lemma shr_1_value (mrs : shr_record) :
  0 <= shr_m mrs -> shr_m (shr_1 mrs) = shr_m mrs / 2.
Proof.
  destruct mrs as [m r s]; cbn [shr_m].
  destruct m as [| [p | p |] | p]; cbn [shr_1 shr_m]; intros H; try lia.
  - reflexivity.
  - apply Z.div_unique with 1; lia.
  - apply Z.div_unique with 0; lia.
  - reflexivity.
Qed.

Lemma pow2_xO (p : positive) : 2 ^ Z.pos p~0 = 2 ^ Z.pos p * 2 ^ Z.pos p.
Proof.
  replace (Z.pos p~0) with (Z.pos p + Z.pos p) by lia.
  apply Z.pow_add_r; lia.
Qed.

Lemma pow2_xI (p : positive) : 2 ^ Z.pos p~1 = 2 * (2 ^ Z.pos p * 2 ^ Z.pos p).
Proof.
  replace (Z.pos p~1) with (Z.succ (Z.pos p + Z.pos p)) by lia.
  rewrite Z.pow_succ_r, Z.pow_add_r by lia. reflexivity.
Qed.

Lemma iter_shr_1_value (p : positive) (mrs : shr_record) :
  0 <= shr_m mrs ->
  shr_m (iter_pos shr_1 p mrs) = shr_m mrs / 2 ^ Z.pos p.
Proof.
  assert (Hpow : forall q, 0 < 2 ^ Z.pos q) by (intros; apply Z.pow_pos_nonneg; lia).
  revert mrs. induction p as [p IH | p IH |]; intros mrs H; simpl iter_pos.
  - pose proof (Hpow p).
    assert (H1 : 0 <= shr_m (shr_1 mrs)) by (apply shr_1_nonneg, H).
    assert (H2 : 0 <= shr_m (iter_pos shr_1 p (shr_1 mrs))).
    { rewrite IH by exact H1. apply Z.div_pos; lia. }
    rewrite IH, IH, shr_1_value by assumption.
    rewrite !Z.div_div by lia. f_equal. rewrite pow2_xI. ring.
  - pose proof (Hpow p).
    assert (H2 : 0 <= shr_m (iter_pos shr_1 p mrs)).
    { rewrite IH by exact H. apply Z.div_pos; lia. }
    rewrite IH, IH by assumption.
    rewrite Z.div_div by lia. f_equal. rewrite pow2_xO. ring.
  - rewrite shr_1_value by exact H. reflexivity.
Qed.

Lemma fexp_64 (e : Z) : fexp prec emax e = Z.max (e - 53) (-1074).
Proof. reflexivity. Qed.

Lemma round_nearest_even_bounds (m : Z) (l : location) :
  m <= round_nearest_even m l <= m + 1.
Proof.
  destruct l as [| []]; simpl; try lia.
  destruct (Z.even m); lia.
Qed.

(** Rounding a mantissa that already has the target exponent changes
    nothing. *)
Lemma shr_fexp_exact (m : positive) (e : Z) :
  fexp prec emax (Z.pos (digits2_pos m) + e) <= e ->
  shr_fexp prec emax (Z.pos m) e loc_Exact
  = (Build_shr_record (Z.pos m) false false, e).
Proof.
  intros Hf. unfold shr_fexp, shr. cbn [Zdigits2 shr_record_of_loc].
  destruct (fexp prec emax (Z.pos (digits2_pos m) + e) - e) eqn:Hk;
    [reflexivity | lia | reflexivity].
Qed.

Lemma binary_round_aux_exact (m : positive) (e : Z) :
  fexp prec emax (Z.pos (digits2_pos m) + e) <= e ->
  e <= emax - prec ->
  binary_round_aux prec emax false (Z.pos m) e loc_Exact = S754_finite false m e.
Proof.
  intros Hf He.
  pose proof (shr_fexp_exact m e Hf) as Hshr.
  unfold binary_round_aux. rewrite Hshr. cbn [shr_m loc_of_shr_record round_nearest_even].
  rewrite Hshr. cbn [shr_m].
  apply Z.leb_le in He. rewrite He. reflexivity.
Qed.

(** Rounding to binary64 a positive number below 1 gives a double in
    [0, 1]. *)
Lemma binary_round_below_one (D : positive) (e : Z) :
  -1074 <= e -> Z.pos (digits2_pos D) + e <= 0 ->
  SFleb (S754_zero false) (binary_round prec emax false D e) = true
  /\ SFleb (binary_round prec emax false D e) one = true.
Proof.
  intros He Hdg.
  pose proof (digits2_pos_bounds D) as [Dlo Dhi].
  set (dg := Z.pos (digits2_pos D) + e) in *.
  set (t := fexp prec emax dg).
  assert (Ht : t = Z.max (dg - 53) (-1074)) by reflexivity.
  unfold binary_round. fold dg. fold t.
  unfold shl_align.
  destruct (t - e) as [| k | d] eqn:Hk.
  - (* the mantissa already has the target exponent *)
    rewrite binary_round_aux_exact; [split; [reflexivity |] | fold dg; fold t; lia
                                     | unfold emax, prec; lia].
    unfold SFleb, SFcompare, one.
    assert (Hc : (e ?= -52) = Lt) by (apply Z.compare_lt_iff; lia).
    rewrite Hc. reflexivity.
  - (* the mantissa is too long: it is shifted right by [k] and rounded *)
    assert (Htd : t = dg - 53) by lia.
    assert (Hkd : Z.pos k = Z.pos (digits2_pos D) - 53) by (unfold dg in *; lia).
    assert (Hp : 0 < 2 ^ Z.pos k) by (apply Z.pow_pos_nonneg; lia).
    assert (Hsplit : 2 ^ Z.pos (digits2_pos D) = 2 ^ 53 * 2 ^ Z.pos k).
    { rewrite <- Z.pow_add_r by lia. f_equal; lia. }
    assert (Hsplit' : 2 ^ (Z.pos (digits2_pos D) - 1) = 2 ^ 52 * 2 ^ Z.pos k).
    { rewrite <- Z.pow_add_r by lia. f_equal; lia. }
    set (mrs' := iter_pos shr_1 k (Build_shr_record (Z.pos D) false false)).
    assert (Hm' : shr_m mrs' = Z.pos D / 2 ^ Z.pos k).
    { unfold mrs'. rewrite iter_shr_1_value; [reflexivity | simpl; lia]. }
    assert (Hm'b : 2 ^ 52 <= shr_m mrs' < 2 ^ 53).
    { rewrite Hm'. split.
      - apply Z.div_le_lower_bound; lia.
      - apply Z.div_lt_upper_bound; lia. }
    assert (Hshr : shr_fexp prec emax (Z.pos D) e loc_Exact = (mrs', t)).
    { unfold shr_fexp, shr. cbn [Zdigits2 shr_record_of_loc].
      fold dg. fold t. rewrite Hk. unfold mrs'. f_equal. lia. }
    unfold binary_round_aux. rewrite Hshr.
    pose proof (round_nearest_even_bounds (shr_m mrs') (loc_of_shr_record mrs'))
      as Hr.
    destruct (round_nearest_even (shr_m mrs') (loc_of_shr_record mrs'))
      as [| q | q] eqn:Hq; [lia | | lia].
    destruct (Z.eq_dec (Z.pos q) (2 ^ 53)) as [Hq53 | Hq53].
    + (* the mantissa was rounded up to the next binade *)
      assert (Hdq : Z.pos (digits2_pos q) = 54).
      { apply digits2_pos_unique. rewrite Hq53.
        change (54 - 1) with 53. split; [lia |].
        apply Z.pow_lt_mono_r; lia. }
      assert (Hshr2 : shr_fexp prec emax (Z.pos q) t loc_Exact
                      = (Build_shr_record (2 ^ 52) false false, t + 1)).
      { unfold shr_fexp, shr. cbn [Zdigits2 shr_record_of_loc].
        rewrite Hdq, fexp_64.
        replace (Z.max (54 + t - 53) (-1074) - t) with 1 by lia.
        cbn [iter_pos]. rewrite Hq53. reflexivity. }
      rewrite Hshr2. cbn [shr_m].
      change (2 ^ 52) with (Z.pos 4503599627370496).
      cbv iota beta.
      assert (Hle : (t + 1 <=? emax - prec) = true)
        by (apply Z.leb_le; unfold emax, prec; lia).
      rewrite Hle. split; [reflexivity |].
      unfold SFleb, SFcompare, one.
      destruct (Z.compare_spec (t + 1) (-52)) as [Heq | Hlt | Hgt];
        [reflexivity | reflexivity | lia].
    + assert (Hdq : Z.pos (digits2_pos q) = 53).
      { apply digits2_pos_unique. change (53 - 1) with 52. lia. }
      rewrite shr_fexp_exact by (rewrite Hdq, fexp_64; lia).
      cbn [shr_m].
      assert (Hle : (t <=? emax - prec) = true)
        by (apply Z.leb_le; unfold emax, prec; lia).
      rewrite Hle. split; [reflexivity |].
      unfold SFleb, SFcompare, one.
      assert (Hc : (t ?= -52) = Lt) by (apply Z.compare_lt_iff; lia).
      rewrite Hc. reflexivity.
  - (* the mantissa is short: it is shifted left to the target exponent *)
    assert (Hdd : Z.pos d = e - t) by lia.
    assert (Hdig : Z.pos (digits2_pos (Pos.iter xO D d))
                   = Z.pos (digits2_pos D) + Z.pos d).
    { apply digits2_pos_unique. rewrite iter_xO_value.
      assert (Hp : 0 < 2 ^ Z.pos d) by (apply Z.pow_pos_nonneg; lia).
      replace (Z.pos (digits2_pos D) + Z.pos d - 1)
        with (Z.pos (digits2_pos D) - 1 + Z.pos d) by lia.
      rewrite !Z.pow_add_r by lia. nia. }
    rewrite binary_round_aux_exact;
      [| rewrite Hdig; replace (Z.pos (digits2_pos D) + Z.pos d + t) with dg
           by (unfold dg; lia); fold t; lia
       | unfold emax, prec; lia].
    split; [reflexivity |].
    unfold SFleb, SFcompare, one.
    assert (Hc : (t ?= -52) = Lt) by (apply Z.compare_lt_iff; lia).
    rewrite Hc. reflexivity.
Qed.

Lemma as_double_one : as_double (PyInt 1) = Ok one.
Proof. vm_compute. reflexivity. Qed.

(** Subtracting from 1 a double of [0, 1] gives a double of [0, 1]. *)
Lemma fsub_one_unit_interval (c : spec_float) :
  valid_binary prec emax c = true ->
  SFleb (S754_zero false) c = true -> SFleb c one = true ->
  SFleb (S754_zero false) (fsub one c) = true /\ SFleb (fsub one c) one = true.
Proof.
  intros Hv H0 H1.
  destruct c as [s | s | | s m e]; try discriminate.
  - split; reflexivity.
  - destruct s; discriminate.
  - destruct s; [discriminate |].
    cbn [valid_binary] in Hv. unfold bounded, canonical_mantissa in Hv.
    apply andb_prop in Hv as [Hcan Hemax].
    apply Z.eqb_eq in Hcan. rewrite fexp_64 in Hcan.
    pose proof (digits2_pos_bounds m) as [Mlo Mhi].
    unfold SFleb, SFcompare, one in H1.
    rewrite Pos.compare_cont_spec in H1. cbn [Pos.switch_Eq] in H1.
    destruct (Z.compare_spec e (-52)) as [Heq | Hlt | Hgt]; [| | discriminate].
    + (* e = -52: the only such double is 1 itself *)
      subst e.
      assert (Hd : Z.pos (digits2_pos m) = 53) by lia.
      rewrite Hd in Mlo. change (2 ^ (53 - 1)) with 4503599627370496 in Mlo.
      assert (Hm : m = 4503599627370496%positive).
      { apply Pos.le_antisym.
        - intros Hgt. rewrite Hgt in H1. discriminate.
        - apply Pos2Z.pos_le_pos. exact Mlo. }
      subst m. split; vm_compute; reflexivity.
    + (* e < -52: the difference is positive and below 1 *)
      assert (Hdm : Z.pos (digits2_pos m) <= 53) by lia.
      assert (He : -1074 <= e) by lia.
      assert (Hm53 : Z.pos m < 2 ^ 53).
      { eapply Z.lt_le_trans; [exact Mhi |]. apply Z.pow_le_mono_r; lia. }
      assert (Hpe : 2 ^ 53 <= 2 ^ (- e)) by (apply Z.pow_le_mono_r; lia).
      unfold fsub, SFsub, one.
      replace (Z.min (-52) e) with e by lia.
      assert (Hal1 : exists d, shl_align 4503599627370496%positive (-52) e
                               = (Pos.iter xO 4503599627370496%positive d, e)
                               /\ Z.pos d = - 52 - e).
      { unfold shl_align. destruct (e - -52) as [| k | d] eqn:Hk; try lia.
        exists d; split; [reflexivity | lia]. }
      destruct Hal1 as (d & -> & Hd).
      assert (Hal2 : shl_align m e e = (m, e)).
      { unfold shl_align. rewrite Z.sub_diag. reflexivity. }
      rewrite Hal2. cbn [fst cond_Zopp].
      rewrite iter_xO_value.
      assert (Hone : 4503599627370496 * 2 ^ Z.pos d = 2 ^ (- e)).
      { change 4503599627370496 with (2 ^ 52).
        rewrite <- Z.pow_add_r by lia. (f_equal; lia). }
      rewrite Hone.
      destruct (2 ^ (- e) - Z.pos m) as [| D | D] eqn:HD; try lia.
      cbn [binary_normalize].
      apply binary_round_below_one; [exact He |].
      pose proof (digits2_pos_bounds D) as [Dlo Dhi].
      assert (HDlt : Z.pos D < 2 ^ (- e)) by lia.
      destruct (Z.le_gt_cases (Z.pos (digits2_pos D) + e) 0) as [H | H];
        [exact H |].
      assert (2 ^ (- e) <= 2 ^ (Z.pos (digits2_pos D) - 1))
        by (apply Z.pow_le_mono_r; lia).
      lia.
Qed.

(** Cell 7 on a probability: whenever the value passed to it is a double
    in [0, 1], the p-value is returned and is a double in [0, 1]. *)
Lemma pval_unit_interval (c : spec_float) :
  valid_binary prec emax c = true ->
  SFleb (S754_zero false) c = true -> SFleb c one = true ->
  exists p : spec_float,
    pval c = Ok (PyFloat p)
    /\ SFleb (S754_zero false) p = true /\ SFleb p one = true.
Proof.
  intros Hv H0 H1. exists (fsub one c). split.
  - unfold pval, Py.sub. cbn [as_double bind].
    change (int_to_float 1) with (as_double (PyInt 1)).
    rewrite as_double_one. reflexivity.
  - apply fsub_one_unit_interval; assumption.
Qed.
(* ================================================================== *)
(** * Magnitude of the rounded values *)
(* ================================================================== *)

Lemma shr_m_of_loc (m : Z) (l : location) : shr_m (shr_record_of_loc m l) = m.
Proof. destruct l as [| []]; reflexivity. Qed.

Lemma loc_of_loc (m : Z) (l : location) :
  loc_of_shr_record (shr_record_of_loc m l) = l.
Proof. destruct l as [| []]; reflexivity. Qed.

(** Rounding a mantissa of at least 53 digits above the subnormal range:
    the mantissa is cut to 53 digits, or replaced by the next 53-digit number
    above it; the result is that double when its exponent fits, and an
    infinity otherwise. *)
Lemma binary_round_aux_shape (sx : bool) (mx : positive) (ex : Z)
      (lx : location) :
  53 <= Z.pos (digits2_pos mx) ->
  -1021 <= Z.pos (digits2_pos mx) + ex ->
  exists (m : positive) (e : Z),
    binary_round_aux prec emax sx (Z.pos mx) ex lx
    = (if e <=? emax - prec then S754_finite sx m e else S754_infinity sx)
    /\ Z.pos (digits2_pos m) = 53
    /\ Z.pos (digits2_pos mx) + ex <= Z.pos (digits2_pos m) + e
       <= Z.pos (digits2_pos mx) + ex + 1
    /\ Z.pos mx / 2 ^ (Z.pos (digits2_pos mx) - 53)
       <= Z.pos m * 2 ^ (e - (Z.pos (digits2_pos mx) + ex - 53))
       <= Z.pos mx / 2 ^ (Z.pos (digits2_pos mx) - 53) + 1.
Proof.
  intros Hd Hdg.
  pose proof (digits2_pos_bounds mx) as [Dlo Dhi].
  set (dg := Z.pos (digits2_pos mx) + ex) in *.
  set (t := dg - 53).
  set (m' := Z.pos mx / 2 ^ (Z.pos (digits2_pos mx) - 53)).
  assert (Hfexp : fexp prec emax dg = t) by (rewrite fexp_64; unfold t; lia).
  (* first stage: the mantissa is cut to 53 digits *)
  assert (Hstage : exists mrs',
             shr_fexp prec emax (Z.pos mx) ex lx = (mrs', t)
             /\ shr_m mrs' = m' /\ 2 ^ 52 <= m' < 2 ^ 53).
  { unfold shr_fexp, shr. cbn [Zdigits2]. fold dg. rewrite Hfexp.
    destruct (t - ex) as [| k | k] eqn:Hk.
    - exists (shr_record_of_loc (Z.pos mx) lx). split; [f_equal; lia |].
      rewrite shr_m_of_loc.
      assert (H53 : Z.pos (digits2_pos mx) = 53) by (unfold t, dg in *; lia).
      unfold m'. rewrite H53 in *. change (53 - 53) with 0.
      change (53 - 1) with 52 in Dlo. rewrite Z.pow_0_r, Z.div_1_r.
      split; [reflexivity | lia].
    - exists (iter_pos shr_1 k (shr_record_of_loc (Z.pos mx) lx)).
      split; [f_equal; lia |].
      rewrite iter_shr_1_value by (rewrite shr_m_of_loc; lia).
      rewrite shr_m_of_loc.
      assert (Hkd : Z.pos k = Z.pos (digits2_pos mx) - 53)
        by (unfold t, dg in *; lia).
      unfold m'. rewrite <- Hkd.
      assert (Hp : 0 < 2 ^ Z.pos k) by (apply Z.pow_pos_nonneg; lia).
      assert (Hsplit : 2 ^ Z.pos (digits2_pos mx) = 2 ^ 53 * 2 ^ Z.pos k).
      { rewrite <- Z.pow_add_r by lia. f_equal; lia. }
      assert (Hsplit' : 2 ^ (Z.pos (digits2_pos mx) - 1) = 2 ^ 52 * 2 ^ Z.pos k).
      { rewrite <- Z.pow_add_r by lia. f_equal; lia. }
      split; [reflexivity |]. split.
      + apply Z.div_le_lower_bound; lia.
      + apply Z.div_lt_upper_bound; lia.
    - unfold t, dg in *; lia. }
  destruct Hstage as (mrs' & Hshr & Hmrs & Hm').
  unfold binary_round_aux. rewrite Hshr.
  pose proof (round_nearest_even_bounds (shr_m mrs') (loc_of_shr_record mrs'))
    as Hr.
  destruct (round_nearest_even (shr_m mrs') (loc_of_shr_record mrs'))
    as [| q | q] eqn:Hq; [lia | | lia].
  destruct (Z.eq_dec (Z.pos q) (2 ^ 53)) as [Hq53 | Hq53].
  - (* rounded up to the next binade *)
    assert (Hdq : Z.pos (digits2_pos q) = 54).
    { apply digits2_pos_unique. rewrite Hq53.
      change (54 - 1) with 53. split; [lia |].
      apply Z.pow_lt_mono_r; lia. }
    assert (Hshr2 : shr_fexp prec emax (Z.pos q) t loc_Exact
                    = (Build_shr_record (2 ^ 52) false false, t + 1)).
    { unfold shr_fexp, shr. cbn [Zdigits2 shr_record_of_loc].
      rewrite Hdq, fexp_64.
      replace (Z.max (54 + t - 53) (-1074) - t) with 1 by (unfold t; lia).
      cbn [iter_pos]. rewrite Hq53. reflexivity. }
    rewrite Hshr2. cbn [shr_m].
    change (2 ^ 52) with (Z.pos 4503599627370496).
    cbv iota beta.
    exists 4503599627370496%positive, (t + 1).
    split; [reflexivity |].
    change (Z.pos (digits2_pos 4503599627370496)) with 53.
    replace (t + 1 - t) with 1 by lia.
    change (Z.pos 4503599627370496 * 2 ^ 1) with (2 ^ 53).
    rewrite <- Hq53. unfold t. lia.
  - assert (Hdq : Z.pos (digits2_pos q) = 53).
    { apply digits2_pos_unique. change (53 - 1) with 52. lia. }
    rewrite shr_fexp_exact by (rewrite Hdq, fexp_64; unfold t; lia).
    cbn [shr_m].
    exists q, t. split; [reflexivity |].
    rewrite Hdq, Z.sub_diag, Z.pow_0_r, Z.mul_1_r. unfold t. lia.
Qed.

(** In the normal range the result is finite, its magnitude grows by at most
    one, and its value is the mantissa cut to 53 digits, or the next
    53-digit number above it. *)
Lemma binary_round_aux_value (sx : bool) (mx : positive) (ex : Z)
      (lx : location) :
  53 <= Z.pos (digits2_pos mx) ->
  -1021 <= Z.pos (digits2_pos mx) + ex <= 1023 ->
  exists (m : positive) (e : Z),
    binary_round_aux prec emax sx (Z.pos mx) ex lx = S754_finite sx m e
    /\ Z.pos (digits2_pos mx) + ex <= Z.pos (digits2_pos m) + e
       <= Z.pos (digits2_pos mx) + ex + 1
    /\ Z.pos (digits2_pos mx) + ex - 53 <= e
    /\ Z.pos mx / 2 ^ (Z.pos (digits2_pos mx) - 53)
       <= Z.pos m * 2 ^ (e - (Z.pos (digits2_pos mx) + ex - 53))
       <= Z.pos mx / 2 ^ (Z.pos (digits2_pos mx) - 53) + 1.
Proof.
  intros Hd Hdg.
  destruct (binary_round_aux_shape sx mx ex lx Hd ltac:(lia))
    as (m & e & Hr & Hm53 & Hmag & Hval).
  exists m, e.
  assert (Hle : (e <=? emax - prec) = true)
    by (apply Z.leb_le; unfold emax, prec; lia).
  rewrite Hle in Hr.
  split; [exact Hr |]. split; [exact Hmag |]. split; [lia | exact Hval].
Qed.

(** Above the largest binade the result is an infinity. *)
Lemma binary_round_aux_overflow (sx : bool) (mx : positive) (ex : Z)
      (lx : location) :
  53 <= Z.pos (digits2_pos mx) ->
  1025 <= Z.pos (digits2_pos mx) + ex ->
  binary_round_aux prec emax sx (Z.pos mx) ex lx = S754_infinity sx.
Proof.
  intros Hd Hdg.
  destruct (binary_round_aux_shape sx mx ex lx Hd ltac:(lia))
    as (m & e & Hr & Hm53 & Hmag & _).
  assert (Hle : (e <=? emax - prec) = false)
    by (apply Z.leb_gt; unfold emax, prec; lia).
  rewrite Hle in Hr. exact Hr.
Qed.

Lemma binary_round_aux_normal (sx : bool) (mx : positive) (ex : Z)
      (lx : location) :
  53 <= Z.pos (digits2_pos mx) ->
  -1021 <= Z.pos (digits2_pos mx) + ex <= 1023 ->
  finite_in sx (Z.pos (digits2_pos mx) + ex) (Z.pos (digits2_pos mx) + ex + 1)
            (binary_round_aux prec emax sx (Z.pos mx) ex lx).
Proof.
  intros Hd Hdg.
  destruct (binary_round_aux_value sx mx ex lx Hd Hdg) as (m & e & Hr & Hm & _).
  exists m, e. split; assumption.
Qed.

Lemma finite_in_weaken (sx : bool) (lo hi lo' hi' : Z) (f : spec_float) :
  finite_in sx lo hi f -> lo' <= lo -> hi <= hi' -> finite_in sx lo' hi' f.
Proof.
  intros (m & e & Hf & Hm) Hlo Hhi. exists m, e. split; [exact Hf | lia].
Qed.

Lemma digits2_pos_iter_xO (m d : positive) :
  Z.pos (digits2_pos (Pos.iter xO m d)) = Z.pos (digits2_pos m) + Z.pos d.
Proof.
  pose proof (digits2_pos_bounds m) as [Mlo Mhi].
  apply digits2_pos_unique. rewrite iter_xO_value.
  assert (Hp : 0 < 2 ^ Z.pos d) by (apply Z.pow_pos_nonneg; lia).
  replace (Z.pos (digits2_pos m) + Z.pos d - 1)
    with (Z.pos (digits2_pos m) - 1 + Z.pos d) by lia.
  rewrite !Z.pow_add_r by lia. nia.
Qed.

(** Rounding [m * 2^e] whose magnitude is in the normal range. *)
Lemma binary_round_normal (sx : bool) (m : positive) (e : Z) :
  -1021 <= Z.pos (digits2_pos m) + e <= 1023 ->
  finite_in sx (Z.pos (digits2_pos m) + e) (Z.pos (digits2_pos m) + e + 1)
            (binary_round prec emax sx m e).
Proof.
  intros Hdg. unfold binary_round, shl_align. rewrite fexp_64.
  set (dg := Z.pos (digits2_pos m) + e) in *.
  replace (Z.max (dg - 53) (-1074)) with (dg - 53) by lia.
  destruct (dg - 53 - e) as [| k | d] eqn:Hk.
  - replace dg with (Z.pos (digits2_pos m) + e) by reflexivity.
    apply binary_round_aux_normal; unfold dg in *; lia.
  - replace dg with (Z.pos (digits2_pos m) + e) by reflexivity.
    apply binary_round_aux_normal; unfold dg in *; lia.
  - pose proof (digits2_pos_iter_xO m d) as Hd.
    pose proof (binary_round_aux_normal sx (Pos.iter xO m d) (dg - 53)
                  loc_Exact) as H.
    rewrite Hd in H.
    eapply finite_in_weaken; [apply H | |]; unfold dg in *; lia.
Qed.

(** An int of at most [B <= 1023] bits converts to a finite double of its
    sign, of magnitude at most [B + 1]. *)
Lemma int_to_float_in_range (i B : Z) :
  i <> 0 -> Z.abs i < 2 ^ B -> B <= 1023 ->
  exists f, int_to_float i = Ok f /\ finite_in (i <? 0) 1 (B + 1) f.
Proof.
  intros Hi Hb HB. unfold int_to_float, round_int.
  assert (Hgen : forall (s : bool) (p : positive),
             Z.pos p < 2 ^ B ->
             finite_in s 1 (B + 1) (binary_round prec emax s p 0)).
  { intros s p Hp.
    pose proof (digits2_pos_bounds p) as [Plo Phi].
    assert (Hd : Z.pos (digits2_pos p) <= B).
    { destruct (Z.le_gt_cases (Z.pos (digits2_pos p)) B) as [H | H];
        [exact H |].
      assert (0 <= B).
      { destruct (Z.le_gt_cases 0 B) as [H0 | H0]; [exact H0 |].
        rewrite (Z.pow_neg_r 2 B) in Hp by lia. lia. }
      assert (2 ^ B <= 2 ^ (Z.pos (digits2_pos p) - 1))
        by (apply Z.pow_le_mono_r; lia).
      lia. }
    eapply finite_in_weaken; [apply binary_round_normal | |]; lia. }
  destruct i as [| p | p]; [contradiction | |]; cbn [binary_normalize].
  - destruct (Hgen false p) as (m & e & Hf & Hm); [lia |].
    rewrite Hf. cbn [is_inf].
    exists (S754_finite false m e). split; [reflexivity |].
    exists m, e. split; [reflexivity | exact Hm].
  - destruct (Hgen true p) as (m & e & Hf & Hm); [lia |].
    rewrite Hf. cbn [is_inf].
    exists (S754_finite true m e). split; [reflexivity |].
    exists m, e. split; [reflexivity | exact Hm].
Qed.

(** The number of digits of a positive number caught between two powers
    of 2. *)
Lemma digits2_pos_between (q : positive) (a b : Z) :
  0 <= a -> 2 ^ a <= Z.pos q < 2 ^ b -> a + 1 <= Z.pos (digits2_pos q) <= b.
Proof.
  intros Ha [Hlo Hhi].
  pose proof (digits2_pos_bounds q) as [Qlo Qhi].
  set (dq := Z.pos (digits2_pos q)) in *.
  assert (Hdq : 0 < dq) by (unfold dq; lia).
  split.
  - destruct (Z.le_gt_cases (a + 1) dq) as [H | H]; [exact H |].
    assert (2 ^ dq <= 2 ^ a) by (apply Z.pow_le_mono_r; lia). lia.
  - destruct (Z.le_gt_cases dq b) as [H | H]; [exact H |].
    assert (0 <= b).
    { destruct (Z.le_gt_cases 0 b) as [Hb | Hb]; [exact Hb |].
      rewrite (Z.pow_neg_r 2 b) in Hhi by lia. lia. }
    assert (2 ^ b <= 2 ^ (dq - 1)) by (apply Z.pow_le_mono_r; lia). lia.
Qed.

(** The quotient of two finite doubles, when the difference of their
    magnitudes is in the normal range: what is rounded is the integer
    quotient [q] of the mantissas, the first one shifted left by [s] bits so
    that [q] has at least 53 digits. *)
Lemma fdiv_core (sx sy : bool) (m1 m2 : positive) (e1 e2 : Z) :
  -1021 <= Z.pos (digits2_pos m1) + e1 - (Z.pos (digits2_pos m2) + e2) <= 1022 ->
  exists (q : positive) (e' s : Z) (l : location),
    fdiv (S754_finite sx m1 e1) (S754_finite sy m2 e2)
    = binary_round_aux prec emax (xorb sx sy) (Z.pos q) e' l
    /\ 0 <= s /\ e' = e1 - e2 - s
    /\ Z.pos q * Z.pos m2 <= Z.pos m1 * 2 ^ s < (Z.pos q + 1) * Z.pos m2
    /\ 53 <= Z.pos (digits2_pos q)
    /\ Z.pos (digits2_pos m1) + e1 - (Z.pos (digits2_pos m2) + e2)
       <= Z.pos (digits2_pos q) + e'
       <= Z.pos (digits2_pos m1) + e1 - (Z.pos (digits2_pos m2) + e2) + 1.
Proof.
  intros Hest.
  pose proof (digits2_pos_bounds m1) as [M1lo M1hi].
  pose proof (digits2_pos_bounds m2) as [M2lo M2hi].
  unfold fdiv, SFdiv, SFdiv_core_binary. cbn [Zdigits2].
  set (d1 := Z.pos (digits2_pos m1)) in *.
  set (d2 := Z.pos (digits2_pos m2)) in *.
  set (est := d1 + e1 - (d2 + e2)) in *.
  rewrite fexp_64.
  replace (Z.max (est - 53) (-1074)) with (est - 53) by lia.
  set (e' := Z.min (est - 53) (e1 - e2)).
  set (s := e1 - e2 - e').
  assert (Hs : 0 <= s) by (unfold s, e'; lia).
  set (N := d1 + s - d2).
  assert (HN : 53 <= N) by (unfold N, s, e', est in *; lia).
  assert (HNe : N + e' = est) by (unfold N, s, est; lia).
  assert (Hd1 : 0 < d1) by (unfold d1; lia).
  assert (Hd2 : 0 < d2) by (unfold d2; lia).
  assert (Hm' : match s with
                | 0 => Z.pos m1
                | Z.pos _ => Z.shiftl (Z.pos m1) s
                | Z.neg _ => 0
                end = Z.pos m1 * 2 ^ s).
  { destruct s as [| p | p] eqn:Es; [simpl; lia | | lia].
    apply Z.shiftl_mul_pow2. lia. }
  rewrite Hm'.
  assert (Hps : 0 < 2 ^ s) by (apply Z.pow_pos_nonneg; lia).
  assert (Hlo : 2 ^ (N - 1) * Z.pos m2 <= Z.pos m1 * 2 ^ s).
  { apply Z.le_trans with (2 ^ (N - 1) * 2 ^ d2).
    - apply Z.mul_le_mono_nonneg_l; [apply Z.pow_nonneg; lia | lia].
    - rewrite <- Z.pow_add_r by lia.
      replace (N - 1 + d2) with (d1 - 1 + s) by (unfold N; lia).
      rewrite Z.pow_add_r by lia.
      apply Z.mul_le_mono_nonneg_r; lia. }
  assert (Hhi : Z.pos m1 * 2 ^ s < 2 ^ (N + 1) * Z.pos m2).
  { apply Z.lt_le_trans with (2 ^ (N + 1) * 2 ^ (d2 - 1)).
    - rewrite <- Z.pow_add_r by lia.
      replace (N + 1 + (d2 - 1)) with (d1 + s) by (unfold N; lia).
      rewrite Z.pow_add_r by lia.
      apply Z.mul_lt_mono_pos_r; lia.
    - apply Z.mul_le_mono_nonneg_l; [apply Z.pow_nonneg; lia | lia]. }
  assert (Hq : 2 ^ (N - 1) <= Z.pos m1 * 2 ^ s / Z.pos m2 < 2 ^ (N + 1)).
  { split.
    - apply Z.div_le_lower_bound; lia.
    - apply Z.div_lt_upper_bound; lia. }
  pose proof (Z.div_mod (Z.pos m1 * 2 ^ s) (Z.pos m2) ltac:(lia)) as Hdm.
  pose proof (Z.mod_pos_bound (Z.pos m1 * 2 ^ s) (Z.pos m2) ltac:(lia)) as Hmb.
  unfold Z.div in Hq, Hdm. unfold Z.modulo in Hdm, Hmb.
  destruct (Z.div_eucl (Z.pos m1 * 2 ^ s) (Z.pos m2)) as [q r].
  assert (Hq52 : 0 < 2 ^ (N - 1)) by (apply Z.pow_pos_nonneg; lia).
  destruct q as [| q | q]; [lia | | lia].
  pose proof (digits2_pos_between q (N - 1) (N + 1) ltac:(lia) Hq) as Hdq.
  eexists q, e', s, _.
  split; [reflexivity |].
  split; [exact Hs |]. split; [unfold s; lia |].
  split; [nia |]. split; lia.
Qed.

(** In that case the quotient is finite, it has the product of the signs,
    and its magnitude is the difference of the magnitudes, up to 2. *)
Lemma fdiv_normal (sx sy : bool) (m1 m2 : positive) (e1 e2 : Z) :
  -1021 <= Z.pos (digits2_pos m1) + e1 - (Z.pos (digits2_pos m2) + e2) <= 1022 ->
  finite_in (xorb sx sy)
    (Z.pos (digits2_pos m1) + e1 - (Z.pos (digits2_pos m2) + e2))
    (Z.pos (digits2_pos m1) + e1 - (Z.pos (digits2_pos m2) + e2) + 2)
    (fdiv (S754_finite sx m1 e1) (S754_finite sy m2 e2)).
Proof.
  intros Hest.
  destruct (fdiv_core sx sy m1 m2 e1 e2 Hest)
    as (q & e' & s & l & -> & _ & _ & _ & Hdq & Hmq).
  eapply finite_in_weaken; [apply binary_round_aux_normal | |]; lia.
Qed.

(** The square root of a positive finite double: what is rounded is the
    integer square root [q] of the mantissa shifted left by [s] bits, so that
    [q] has at least 53 digits. *)
Lemma fsqrt_core (m : positive) (e : Z) :
  -2000 <= Z.pos (digits2_pos m) + e <= 2000 ->
  exists (q : positive) (e' s : Z) (l : location),
    fsqrt (S754_finite false m e)
    = binary_round_aux prec emax false (Z.pos q) e' l
    /\ 0 <= s /\ e = 2 * e' + s
    /\ Z.pos q * Z.pos q <= Z.pos m * 2 ^ s < (Z.pos q + 1) * (Z.pos q + 1)
    /\ 53 <= Z.pos (digits2_pos q)
    /\ Z.pos (digits2_pos q) + e' = (Z.pos (digits2_pos m) + e + 1) / 2.
Proof.
  intros HM.
  pose proof (digits2_pos_bounds m) as [Mlo Mhi].
  unfold fsqrt, SFsqrt, SFsqrt_core_binary. cbn [Zdigits2].
  set (d := Z.pos (digits2_pos m)) in *.
  rewrite !Z.div2_div.
  set (est := (d + e + 1) / 2).
  assert (Hest : 2 * est <= d + e + 1 <= 2 * est + 1).
  { unfold est. pose proof (Z.div_mod (d + e + 1) 2 ltac:(lia)).
    pose proof (Z.mod_pos_bound (d + e + 1) 2 ltac:(lia)). lia. }
  assert (He2 : 2 * (e / 2) <= e).
  { pose proof (Z.div_mod e 2 ltac:(lia)).
    pose proof (Z.mod_pos_bound e 2 ltac:(lia)). lia. }
  rewrite fexp_64.
  replace (Z.max (est - 53) (-1074)) with (est - 53) by lia.
  set (e' := Z.min (est - 53) (e / 2)).
  set (s := e - 2 * e').
  assert (Hs : 0 <= s) by (unfold s, e'; lia).
  assert (Hd : 0 < d) by (unfold d; lia).
  set (j := est - e').
  assert (Hj : 53 <= j) by (unfold j, e'; lia).
  assert (Hj2 : 2 * j - 1 <= d + s <= 2 * j) by (unfold j, s; lia).
  assert (Hm' : match s with
                | 0 => Z.pos m
                | Z.pos _ => Z.shiftl (Z.pos m) s
                | Z.neg _ => 0
                end = Z.pos m * 2 ^ s).
  { destruct s as [| p | p] eqn:Es; [simpl; lia | | lia].
    apply Z.shiftl_mul_pow2. lia. }
  rewrite Hm'.
  set (m' := Z.pos m * 2 ^ s).
  assert (Hps : 0 < 2 ^ s) by (apply Z.pow_pos_nonneg; lia).
  assert (Hm'lo : 2 ^ (j - 1) * 2 ^ (j - 1) <= m').
  { rewrite <- Z.pow_add_r by lia.
    apply Z.le_trans with (2 ^ (d - 1 + s)).
    - apply Z.pow_le_mono_r; lia.
    - rewrite Z.pow_add_r by lia. unfold m'.
      apply Z.mul_le_mono_nonneg_r; lia. }
  assert (Hm'hi : m' < 2 ^ j * 2 ^ j).
  { rewrite <- Z.pow_add_r by lia.
    apply Z.lt_le_trans with (2 ^ (d + s)).
    - rewrite Z.pow_add_r by lia. unfold m'.
      apply Z.mul_lt_mono_pos_r; lia.
    - apply Z.pow_le_mono_r; lia. }
  assert (Hm'pos : 0 <= m') by (unfold m'; lia).
  pose proof (Z.sqrt_spec m' Hm'pos) as Hsq. cbv zeta in Hsq.
  pose proof (Z.sqrt_nonneg m') as Hq0.
  rewrite <- (Z.sqrtrem_sqrt m') in Hsq, Hq0.
  destruct (Z.sqrtrem m') as [q r]. cbn [fst] in Hsq, Hq0.
  assert (Hpj : 0 < 2 ^ (j - 1)) by (apply Z.pow_pos_nonneg; lia).
  assert (Hpj' : 2 ^ j = 2 * 2 ^ (j - 1)).
  { rewrite <- Z.pow_succ_r by lia. f_equal; lia. }
  assert (Hq : 2 ^ (j - 1) <= q < 2 ^ j) by nia.
  destruct q as [| q | q]; [lia | | lia].
  pose proof (digits2_pos_between q (j - 1) j ltac:(lia) Hq) as Hdq.
  eexists q, e', s, _.
  split; [reflexivity |].
  split; [exact Hs |]. split; [unfold s; lia |].
  split; [replace (Z.succ (Z.pos q)) with (Z.pos q + 1) in Hsq by lia;
          exact Hsq |].
  split; [lia |]. unfold j in *. lia.
Qed.

(** In that case the square root is finite and positive, and its magnitude
    is half the magnitude of the argument, rounded up, or one more. *)
Lemma fsqrt_normal (m : positive) (e : Z) :
  -2000 <= Z.pos (digits2_pos m) + e <= 2000 ->
  finite_in false
    ((Z.pos (digits2_pos m) + e + 1) / 2)
    ((Z.pos (digits2_pos m) + e + 1) / 2 + 1)
    (fsqrt (S754_finite false m e)).
Proof.
  intros HM.
  pose proof (Z.div_mod (Z.pos (digits2_pos m) + e + 1) 2 ltac:(lia)) as Hdm.
  pose proof (Z.mod_pos_bound (Z.pos (digits2_pos m) + e + 1) 2 ltac:(lia)).
  destruct (fsqrt_core m e HM) as (q & e' & s & l & -> & _ & _ & _ & Hdq & Hmq).
  eapply finite_in_weaken; [apply binary_round_aux_normal | |]; lia.
Qed.

(** The quotient of two finite doubles is never NaN: it is a zero, a finite
    number or an infinity with the product of the signs. *)
Lemma fdiv_finite_signed (sx sy : bool) (m1 m2 : positive) (e1 e2 : Z) :
  signed_as (xorb sx sy) (fdiv (S754_finite sx m1 e1) (S754_finite sy m2 e2)).
Proof.
  unfold fdiv, SFdiv.
  destruct (SFdiv_core_binary prec emax (Z.pos m1) e1 (Z.pos m2) e2)
    as [[mz ez] lz] eqn:Hcore.
  apply binary_round_aux_signed.
  unfold SFdiv_core_binary in Hcore.
  set (s := e1 - e2 - Z.min _ _) in Hcore.
  set (m' := match s with
             | 0 => Z.pos m1
             | Z.pos _ => Z.shiftl (Z.pos m1) s
             | Z.neg _ => 0
             end) in Hcore.
  assert (Hm' : 0 <= m').
  { unfold m'. destruct s; [lia | apply Z.shiftl_nonneg; lia | lia]. }
  pose proof (Z.div_pos m' (Z.pos m2) Hm' ltac:(lia)) as Hq.
  unfold Z.div in Hq.
  destruct (Z.div_eucl m' (Z.pos m2)) as [q r].
  injection Hcore as <- _ _. exact Hq.
Qed.

(** An int of more than 1024 bits has no double: the conversion raises
    [OverflowError]. *)
Lemma int_to_float_overflow (i : Z) :
  2 ^ 1024 <= Z.abs i -> int_to_float i = Raise OverflowError.
Proof.
  intros Hi.
  assert (Hgen : forall (s : bool) (p : positive),
             2 ^ 1024 <= Z.pos p ->
             binary_round prec emax s p 0 = S754_infinity s).
  { intros s p Hp.
    pose proof (digits2_pos_bounds p) as [Plo Phi].
    assert (Hd : 1025 <= Z.pos (digits2_pos p)).
    { destruct (Z.le_gt_cases 1025 (Z.pos (digits2_pos p))) as [H | H];
        [exact H |].
      assert (2 ^ Z.pos (digits2_pos p) <= 2 ^ 1024)
        by (apply Z.pow_le_mono_r; lia).
      lia. }
    unfold binary_round, shl_align. rewrite fexp_64, Z.add_0_r.
    destruct (Z.max (Z.pos (digits2_pos p) - 53) (-1074) - 0) eqn:Hk;
      [lia | | lia].
    apply binary_round_aux_overflow; lia. }
  unfold int_to_float, round_int.
  destruct i as [| p | p]; cbn [binary_normalize].
  - change (Z.abs 0) with 0 in Hi.
    assert (0 < 2 ^ 1024) by (apply Z.pow_pos_nonneg; lia). lia.
  - rewrite Hgen by exact Hi. reflexivity.
  - rewrite Hgen by exact Hi. reflexivity.
Qed.

(* ================================================================== *)
(** * Cell 1 on ints: domain, exceptions, sign *)
(* ================================================================== *)



(** X2: which exception cell 1 raises outside its domain, for ints whose
    difference of means [x_bar - mu], standard deviation and sample size
    are all below [2^1023] in absolute value: a negative sample size is a
    [ValueError] of [math.sqrt]; a zero sample size, or a zero standard
    deviation with a positive sample size, is a [ZeroDivisionError]. *)
Theorem z_statistic_int_errors (a b sg k : Z) :
  Z.abs (a - b) < 2 ^ 1023 -> Z.abs sg < 2 ^ 1023 -> Z.abs k < 2 ^ 1023 ->
  k <= 0 \/ sg = 0 ->
  z_statistic (PyInt a) (PyInt b) (PyInt sg) (PyInt k)
  = Raise (if k <? 0 then ValueError else ZeroDivisionError).
Proof.
  intros Hab Hsg Hk Hbad.
  unfold z_statistic. cbn [Py.sub bind].
  assert (Hconv : forall i, Z.abs i < 2 ^ 1023 ->
                    exists f, int_to_float i = Ok f).
  { intros i Hi. destruct (Z.eq_dec i 0) as [-> | Hi0].
    - exists (S754_zero false). reflexivity.
    - destruct (int_to_float_in_range i 1023 Hi0 Hi ltac:(lia)) as (f & Hf & _).
      exists f. exact Hf. }
  destruct (Z.ltb_spec k 0) as [Hneg | Hnn].
  - (* k < 0 *)
    destruct (int_to_float_in_range k 1023) as (fn & Hfn & (mn & en & -> & _));
      [lia | lia | lia |].
    replace (k <? 0) with true in Hfn by (symmetry; apply Z.ltb_lt; lia).
    unfold math.sqrt. cbn [as_double]. rewrite Hfn. reflexivity.
  - destruct (Z.eq_dec k 0) as [-> | Hk0].
    + (* k = 0 *)
      unfold math.sqrt. cbn [as_double]. rewrite int_to_float_zero.
      cbn [bind fsqrt SFsqrt is_nan is_inf is_finite andb negb].
      unfold truediv at 1. cbn [as_double].
      destruct (Hconv sg Hsg) as (fs & ->). reflexivity.
    + (* k > 0 and sg = 0 *)
      destruct Hbad as [Hle | ->]; [lia |].
      destruct (int_to_float_in_range k 1023) as (fn & Hfn & (mn & en & -> & Hmn));
        [lia | lia | lia |].
      replace (k <? 0) with false in Hfn by (symmetry; apply Z.ltb_ge; lia).
      pose proof (fsqrt_normal mn en ltac:(lia)) as (ms & es & Hs & _).
      unfold math.sqrt. cbn [as_double]. rewrite Hfn. cbn [bind].
      rewrite Hs. cbn [is_nan is_inf is_finite andb negb bind].
      unfold truediv. cbn [as_double]. rewrite int_to_float_zero.
      cbn [bind is_zero fdiv SFdiv].
      destruct (Hconv (a - b) Hab) as (fd & ->). reflexivity.
Qed.

Lemma z_statistic_int_errors_witness :
  z_statistic (PyInt 103) (PyInt 100) (PyInt 16) (PyInt (-40))
  = Raise (if -40 <? 0 then ValueError else ZeroDivisionError).
Proof. apply (z_statistic_int_errors 103 100 16 (-40)); lia. Defined.

(** X4: with int inputs, however large, cell 1 never returns NaN. *)
Theorem z_statistic_int_not_nan (a b sg k : Z) (r : spec_float) :
  z_statistic (PyInt a) (PyInt b) (PyInt sg) (PyInt k) = Ok r ->
  is_nan r = false.
Proof.
  unfold z_statistic. cbn [Py.sub bind].
  destruct (math.sqrt (PyInt k)) as [s | e] eqn:Hsqrt; [| discriminate].
  cbn [bind].
  (* the square root of an int is a zero or a finite double *)
  assert (Hs : is_nan s = false /\ is_inf s = false).
  { split; [apply (sqrt_not_nan (PyInt k)); [reflexivity | exact Hsqrt] |].
    unfold math.sqrt in Hsqrt. cbn [as_double] in Hsqrt.
    destruct (int_to_float k) as [fk | e] eqn:Hfk; [| discriminate].
    cbn [bind] in Hsqrt.
    pose proof (int_to_float_signed _ _ Hfk) as Hsign.
    assert (Hfin : is_finite fk = true).
    { unfold int_to_float in Hfk. destruct (round_int k); cbn in *;
        try discriminate; injection Hfk as <-; try reflexivity; contradiction. }
    destruct (is_nan (fsqrt fk) && negb (is_nan fk)); [discriminate |].
    rewrite Hfin, andb_true_r in Hsqrt.
    destruct (is_inf (fsqrt fk)) eqn:Hinf; [discriminate |].
    injection Hsqrt as <-. exact Hinf. }
  destruct Hs as [Hsn Hsi].
  unfold truediv at 1. cbn [as_double].
  destruct (int_to_float sg) as [fs | e] eqn:Hfs; [| discriminate].
  cbn [bind].
  destruct (is_zero s) eqn:Hsz; [discriminate |].
  cbn [bind].
  pose proof (int_to_float_signed _ _ Hfs) as Hsgn.
  (* the standard error is not NaN *)
  assert (Hq : is_nan (fdiv fs s) = false).
  { destruct s as [ss | ss | | ss ms es]; try discriminate.
    destruct fs as [s0 | s0 | | s0 mg eg]; try reflexivity; try contradiction.
    pose proof (fdiv_finite_signed s0 ss mg ms eg es) as H.
    destruct (fdiv (S754_finite s0 mg eg) (S754_finite ss ms es));
      try reflexivity; contradiction. }
  unfold truediv. cbn [as_double].
  destruct (int_to_float (a - b)) as [fd | e] eqn:Hfd; [| discriminate].
  cbn [bind].
  destruct (is_zero (fdiv fs s)) eqn:Hqz; [discriminate |].
  intros [= <-].
  pose proof (int_to_float_signed _ _ Hfd) as Hdn.
  assert (Hfdfin : is_inf fd = false).
  { unfold int_to_float in Hfd. destruct (is_inf (round_int (a - b))) eqn:Hi;
      [discriminate |]. injection Hfd as <-. exact Hi. }
  destruct (fdiv fs s) as [sq | sq | | sq mq eq]; try discriminate.
  - destruct fd; try reflexivity; try contradiction; discriminate.
  - destruct fd as [s1 | s1 | | s1 md ed]; try reflexivity; try contradiction;
      try discriminate.
    pose proof (fdiv_finite_signed s1 sq md mq ed eq) as H.
    destruct (fdiv (S754_finite s1 md ed) (S754_finite sq mq eq));
      try reflexivity; contradiction.
Qed.

Lemma z_statistic_int_not_nan_witness : is_nan z_out = false.
Proof.
  apply (z_statistic_int_not_nan 103 100 16 40 z_out).
  vm_compute. reflexivity.
Defined.

(** X5: exchanging two distinct int means (sample mean and hypothesised mean)
    changes the sign of the z-statistic and nothing else, whatever sigma and
    n are: the same exception is raised, or the negated double is returned. *)
Theorem z_statistic_swap_means (a b : Z) (sigma n : value) :
  a <> b ->
  z_statistic (PyInt b) (PyInt a) sigma n
  = result_map SFopp (z_statistic (PyInt a) (PyInt b) sigma n).
Proof.
  intros Hab. unfold z_statistic. cbn [Py.sub bind].
  destruct (math.sqrt n) as [s | e]; [| reflexivity]. cbn [bind].
  destruct (truediv sigma s) as [q | e]; [| reflexivity]. cbn [bind].
  unfold truediv. cbn [as_double].
  replace (b - a) with (- (a - b)) by lia.
  rewrite int_to_float_opp by lia.
  destruct (int_to_float (a - b)) as [fd | e]; [| reflexivity].
  cbn [result_map bind].
  destruct (is_zero q); [reflexivity |].
  cbn [result_map]. rewrite fdiv_opp_l. reflexivity.
Qed.

Lemma z_statistic_swap_means_witness :
  z_statistic (PyInt 100) (PyInt 103) (PyInt 16) (PyInt 40)
  = result_map SFopp (z_statistic (PyInt 103) (PyInt 100) (PyInt 16) (PyInt 40)).
Proof. apply (z_statistic_swap_means 103 100); lia. Defined.

(** X3: when cell 1 raises [OverflowError] on ints: as soon as the sample size
    has more than 1024 bits; or the standard deviation has, for a sample
    size that [sqrt] accepts; or the difference of the means has, for a
    standard deviation and a sample size in the domain.  The int is
    converted before the divisor is looked at: a zero divisor does not turn
    this error into [ZeroDivisionError]. *)
Theorem z_statistic_int_overflow (a b sg k : Z) :
  2 ^ 1024 <= k
  \/ (0 <= k < 2 ^ 1023 /\ 2 ^ 1024 <= Z.abs sg)
  \/ (0 < k < 2 ^ 512 /\ sg <> 0 /\ Z.abs sg < 2 ^ 512
      /\ 2 ^ 1024 <= Z.abs (a - b)) ->
  z_statistic (PyInt a) (PyInt b) (PyInt sg) (PyInt k) = Raise OverflowError.
Proof.
  intros H.
  unfold z_statistic. cbn [Py.sub bind].
  destruct H as [Hk | [[Hk Hsg] | (Hk & Hsg0 & Hsg & Hd)]].
  - unfold math.sqrt. cbn [as_double].
    rewrite int_to_float_overflow by lia. reflexivity.
  - assert (Hs : exists s, math.sqrt (PyInt k) = Ok s).
    { unfold math.sqrt. cbn [as_double].
      destruct (Z.eq_dec k 0) as [-> | Hk0].
      - rewrite int_to_float_zero. exists (S754_zero false). reflexivity.
      - destruct (int_to_float_in_range k 1023)
          as (fn & Hfn & (mn & en & -> & Hmn)); [lia | lia | lia |].
        replace (k <? 0) with false in Hfn
          by (symmetry; apply Z.ltb_ge; lia).
        pose proof (fsqrt_normal mn en ltac:(lia)) as (ms & es & Hs & _).
        rewrite Hfn. cbn [bind]. rewrite Hs.
        exists (S754_finite false ms es). reflexivity. }
    destruct Hs as (s & ->). cbn [bind].
    unfold truediv at 1. cbn [as_double].
    rewrite int_to_float_overflow by exact Hsg. reflexivity.
  - destruct (int_to_float_in_range k 512)
      as (fn & Hfn & (mn & en & -> & Hmn)); [lia | lia | lia |].
    replace (k <? 0) with false in Hfn by (symmetry; apply Z.ltb_ge; lia).
    pose proof (fsqrt_normal mn en ltac:(lia)) as (ms & es & Hs & Hms).
    assert (Hest : 1 <= (Z.pos (digits2_pos mn) + en + 1) / 2 <= 257).
    { split.
      - apply Z.div_le_lower_bound; lia.
      - apply Z.div_le_upper_bound; lia. }
    unfold math.sqrt. cbn [as_double]. rewrite Hfn. cbn [bind].
    rewrite Hs. cbn [is_nan is_inf is_finite andb negb bind].
    destruct (int_to_float_in_range sg 512)
      as (fs & Hfs & (mg & eg & -> & Hmg)); [lia | lia | lia |].
    pose proof (fdiv_normal (sg <? 0) false mg ms eg es ltac:(lia))
      as (mq & eq & Hq & Hmq).
    unfold truediv at 1. cbn [as_double]. rewrite Hfs. cbn [bind is_zero].
    rewrite Hq. unfold truediv. cbn [as_double].
    rewrite int_to_float_overflow by exact Hd. reflexivity.
Qed.

Lemma z_statistic_int_overflow_witness :
  z_statistic (PyInt 103) (PyInt 100) (PyInt 16) (PyInt (2 ^ 1024))
  = Raise OverflowError.
Proof.
  apply (z_statistic_int_overflow 103 100 16 (2 ^ 1024)).
  left. lia.
Defined.

(** X6: a NaN mean is not detected: when the sample mean or the hypothesised
    mean is NaN (and the other one converts to a double), cell 1 raises
    nothing on its domain and returns NaN. *)
Theorem z_statistic_nan_mean (x mu : value) (fx fm : spec_float) (sg k : Z) :
  as_double x = Ok fx -> as_double mu = Ok fm ->
  is_nan fx = true \/ is_nan fm = true ->
  sg <> 0 -> Z.abs sg < 2 ^ 512 ->
  0 < k < 2 ^ 512 ->
  z_statistic x mu (PyInt sg) (PyInt k) = Ok S754_nan.
Proof.
  intros Hx Hmu Hnan Hsg0 Hsg Hk.
  assert (Hint : forall i f, int_to_float i = Ok f -> is_nan f = false).
  { intros i f Hf. pose proof (int_to_float_signed _ _ Hf) as H.
    destruct f; try reflexivity; contradiction. }
  assert (Hsub : Py.sub x mu = Ok (PyFloat S754_nan)).
  { destruct x as [i | f], mu as [j | g]; cbn [as_double] in Hx, Hmu.
    - destruct Hnan as [H | H];
        [rewrite (Hint _ _ Hx) in H | rewrite (Hint _ _ Hmu) in H];
        discriminate.
    - injection Hmu as ->. cbn [Py.sub as_double]. rewrite Hx. cbn [bind].
      destruct Hnan as [H | H]; [rewrite (Hint _ _ Hx) in H; discriminate |].
      destruct fm; try discriminate.
      destruct fx; reflexivity.
    - injection Hx as ->. cbn [Py.sub as_double bind]. rewrite Hmu.
      cbn [bind].
      destruct Hnan as [H | H]; [| rewrite (Hint _ _ Hmu) in H; discriminate].
      destruct fx; try discriminate. reflexivity.
    - injection Hx as ->. injection Hmu as ->. cbn [Py.sub as_double bind].
      destruct Hnan as [H | H].
      + destruct fx; try discriminate. reflexivity.
      + destruct fm; try discriminate. destruct fx; reflexivity. }
  unfold z_statistic. rewrite Hsub. cbn [bind].
  destruct (int_to_float_in_range k 512)
    as (fn & Hfn & (mn & en & -> & Hmn)); [lia | lia | lia |].
  replace (k <? 0) with false in Hfn by (symmetry; apply Z.ltb_ge; lia).
  pose proof (fsqrt_normal mn en ltac:(lia)) as (ms & es & Hs & Hms).
  assert (Hest : 1 <= (Z.pos (digits2_pos mn) + en + 1) / 2 <= 257).
  { split.
    - apply Z.div_le_lower_bound; lia.
    - apply Z.div_le_upper_bound; lia. }
  unfold math.sqrt. cbn [as_double]. rewrite Hfn. cbn [bind].
  rewrite Hs. cbn [is_nan is_inf is_finite andb negb bind].
  destruct (int_to_float_in_range sg 512)
    as (fs & Hfs & (mg & eg & -> & Hmg)); [lia | lia | lia |].
  pose proof (fdiv_normal (sg <? 0) false mg ms eg es ltac:(lia))
    as (mq & eq & Hq & Hmq).
  unfold truediv at 1. cbn [as_double]. rewrite Hfs. cbn [bind is_zero].
  rewrite Hq. reflexivity.
Qed.

Lemma z_statistic_nan_mean_witness :
  z_statistic (PyFloat S754_nan) (PyInt 100) (PyInt 16) (PyInt 40)
  = Ok S754_nan.
Proof.
  apply (z_statistic_nan_mean (PyFloat S754_nan) (PyInt 100)
           S754_nan (S754_finite false 7036874417766400 (-46)));
    [reflexivity | reflexivity | left; reflexivity | lia | lia | lia].
Defined.

(* ================================================================== *)
(** * Accuracy of the arithmetic *)
(* ================================================================== *)

Lemma bpow2_powerRZ (e : Z) : bpow2 e = powerRZ 2 e.
Proof.
  destruct e as [| p | p]; cbn [bpow2 powerRZ].
  - reflexivity.
  - rewrite Zpower_pos_powerRZ. reflexivity.
  - rewrite Zpower_pos_powerRZ. reflexivity.
Qed.

Lemma bpow2_add (a b : Z) : bpow2 (a + b) = (bpow2 a * bpow2 b)%R.
Proof. rewrite !bpow2_powerRZ. apply powerRZ_add. lra. Qed.

Lemma bpow2_pos (e : Z) : (0 < bpow2 e)%R.
Proof. rewrite bpow2_powerRZ. apply powerRZ_lt. lra. Qed.

Lemma IZR_pow2 (k : Z) : 0 <= k -> IZR (2 ^ k) = bpow2 k.
Proof.
  intros Hk. destruct k as [| p | p]; [reflexivity | reflexivity | lia].
Qed.

(** Relative accuracy of the rounding of a mantissa of at least 53 digits in
    the normal range: whatever the real number located next to the mantissa,
    the double returned differs from it by at most one unit in the last
    place, hence by a relative error of at most [2^-52]. *)
Lemma binary_round_aux_rel (sx : bool) (mx : positive) (ex : Z)
      (lx : location) (x : R) :
  53 <= Z.pos (digits2_pos mx) ->
  -1021 <= Z.pos (digits2_pos mx) + ex <= 1023 ->
  (IZR (Z.pos mx) * bpow2 ex <= x < IZR (Z.pos mx + 1) * bpow2 ex)%R ->
  exists (m : positive) (e : Z) (dl : R),
    binary_round_aux prec emax sx (Z.pos mx) ex lx = S754_finite sx m e
    /\ Z.pos (digits2_pos mx) + ex <= Z.pos (digits2_pos m) + e
       <= Z.pos (digits2_pos mx) + ex + 1
    /\ (IZR (Z.pos m) * bpow2 e = x * (1 + dl))%R
    /\ (Rabs dl <= bpow2 (-52))%R.
Proof.
  intros Hd Hdg [Hxlo Hxhi].
  destruct (binary_round_aux_value sx mx ex lx Hd Hdg)
    as (m & e & Hr & Hmag & Hte & Hval).
  pose proof (digits2_pos_bounds mx) as [Dlo Dhi].
  set (n := Z.pos (digits2_pos mx) - 53) in *.
  set (t := Z.pos (digits2_pos mx) + ex - 53) in *.
  set (m' := Z.pos mx / 2 ^ n) in *.
  assert (Hn : 0 <= n) by (unfold n; lia).
  assert (Hpn : 0 < 2 ^ n) by (apply Z.pow_pos_nonneg; lia).
  assert (Hm'1 : m' * 2 ^ n <= Z.pos mx).
  { unfold m'. rewrite Z.mul_comm. apply Z.mul_div_le. exact Hpn. }
  assert (Hm'2 : Z.pos mx + 1 <= (m' + 1) * 2 ^ n).
  { pose proof (Z.mul_succ_div_gt (Z.pos mx) (2 ^ n) Hpn) as H.
    fold m' in H. lia. }
  assert (Hm'52 : 2 ^ 52 <= m').
  { unfold m'. apply Z.div_le_lower_bound; [exact Hpn |].
    rewrite Z.mul_comm, <- Z.pow_add_r by lia.
    replace (52 + n) with (Z.pos (digits2_pos mx) - 1) by (unfold n; lia).
    exact Dlo. }
  set (k := e - t) in *.
  assert (Hk : 0 <= k) by (unfold k; lia).
  set (P := bpow2 t).
  assert (HP : (0 < P)%R) by apply bpow2_pos.
  assert (HPn : (IZR (2 ^ n) * bpow2 ex = P)%R).
  { unfold P. rewrite IZR_pow2 by exact Hn. rewrite <- bpow2_add.
    f_equal. unfold n, t. lia. }
  assert (HPk : (bpow2 e = IZR (2 ^ k) * P)%R).
  { unfold P. rewrite IZR_pow2 by exact Hk. rewrite <- bpow2_add.
    f_equal. unfold k. lia. }
  set (A := (IZR m' * P)%R).
  assert (HAx : (A <= x)%R).
  { apply Rle_trans with (IZR (Z.pos mx) * bpow2 ex)%R; [| exact Hxlo].
    unfold A. rewrite <- HPn, <- Rmult_assoc, <- mult_IZR.
    apply Rmult_le_compat_r; [left; apply bpow2_pos | apply IZR_le, Hm'1]. }
  assert (HxA : (x < A + P)%R).
  { apply Rlt_le_trans with (IZR (Z.pos mx + 1) * bpow2 ex)%R; [exact Hxhi |].
    replace (A + P)%R with (IZR (m' + 1) * P)%R
      by (unfold A; rewrite plus_IZR; ring).
    rewrite <- HPn, <- Rmult_assoc, <- mult_IZR.
    apply Rmult_le_compat_r; [left; apply bpow2_pos | apply IZR_le, Hm'2]. }
  set (v := (IZR (Z.pos m) * bpow2 e)%R).
  assert (Hv : (A <= v <= A + P)%R).
  { unfold v. rewrite HPk, <- Rmult_assoc, <- mult_IZR.
    replace (A + P)%R with (IZR (m' + 1) * P)%R
      by (unfold A; rewrite plus_IZR; ring).
    unfold A. split; (apply Rmult_le_compat_r; [left; exact HP |]);
      apply IZR_le; lia. }
  assert (HA52 : (IZR (2 ^ 52) * P <= A)%R).
  { unfold A. apply Rmult_le_compat_r; [left; exact HP | apply IZR_le, Hm'52]. }
  assert (Hx0 : (0 < x)%R).
  { apply Rlt_le_trans with (IZR (2 ^ 52) * P)%R; [| lra].
    apply Rmult_lt_0_compat; [apply IZR_lt; reflexivity | exact HP]. }
  exists m, e, ((v - x) / x)%R.
  split; [exact Hr |]. split; [exact Hmag |]. split.
  - fold v. field. lra.
  - unfold Rdiv. rewrite Rabs_mult, (Rabs_pos_eq (/ x))
      by (left; apply Rinv_0_lt_compat, Hx0).
    apply Rmult_le_reg_r with x; [exact Hx0 |].
    rewrite Rmult_assoc, Rinv_l, Rmult_1_r by lra.
    apply Rle_trans with P.
    + apply Rabs_le. lra.
    + change (bpow2 (-52)) with (/ IZR (2 ^ 52))%R.
      apply Rmult_le_reg_l with (IZR (2 ^ 52));
        [apply IZR_lt; reflexivity |].
      rewrite <- Rmult_assoc, Rinv_r, Rmult_1_l
        by (apply not_0_IZR; discriminate).
      lra.
Qed.

(** The real number a finite double stands for, by sign. *)
Lemma F2R_finite (s : bool) (m : positive) (e : Z) :
  F2R (S754_finite s m e)
  = ((if s then -1 else 1) * (IZR (Z.pos m) * bpow2 e))%R.
Proof.
  destruct s; cbn [F2R cond_Zopp]; rewrite ?opp_IZR;
    generalize (IZR (Z.pos m)) (bpow2 e); intros; ring.
Qed.

Lemma F2R_finite_neq_0 (s : bool) (m : positive) (e : Z) :
  F2R (S754_finite s m e) <> 0%R.
Proof.
  rewrite F2R_finite.
  pose proof (bpow2_pos e) as He.
  assert (Hm : (0 < IZR (Z.pos m))%R) by (apply IZR_lt; lia).
  pose proof (Rmult_lt_0_compat _ _ Hm He).
  destruct s; lra.
Qed.

(** Relative accuracy of the division of two finite doubles whose quotient
    is in the normal range. *)
Lemma fdiv_rel (sx sy : bool) (m1 m2 : positive) (e1 e2 : Z) :
  -1021 <= Z.pos (digits2_pos m1) + e1 - (Z.pos (digits2_pos m2) + e2) <= 1022 ->
  exists (m : positive) (e : Z) (dl : R),
    fdiv (S754_finite sx m1 e1) (S754_finite sy m2 e2)
    = S754_finite (xorb sx sy) m e
    /\ Z.pos (digits2_pos m1) + e1 - (Z.pos (digits2_pos m2) + e2)
       <= Z.pos (digits2_pos m) + e
       <= Z.pos (digits2_pos m1) + e1 - (Z.pos (digits2_pos m2) + e2) + 2
    /\ (F2R (S754_finite (xorb sx sy) m e)
        = F2R (S754_finite sx m1 e1) / F2R (S754_finite sy m2 e2) * (1 + dl))%R
    /\ (Rabs dl <= bpow2 (-52))%R.
Proof.
  intros Hest.
  destruct (fdiv_core sx sy m1 m2 e1 e2 Hest)
    as (q & e' & s & l & Hdiv & Hs & He' & [Hq1 Hq2] & Hdq & Hmq).
  set (x := (IZR (Z.pos m1) * bpow2 e1 / (IZR (Z.pos m2) * bpow2 e2))%R).
  assert (Hm2 : (0 < IZR (Z.pos m2))%R) by (apply IZR_lt; lia).
  pose proof (bpow2_pos e2) as Hb2.
  pose proof (bpow2_pos e') as Hb'.
  assert (Hx : (x = IZR (Z.pos m1 * 2 ^ s) / IZR (Z.pos m2) * bpow2 e')%R).
  { unfold x. replace e1 with (e' + s + e2) by lia.
    rewrite !bpow2_add, mult_IZR, IZR_pow2 by exact Hs. field. lra. }
  assert (Hloc : (IZR (Z.pos q) * bpow2 e' <= x
                  < IZR (Z.pos q + 1) * bpow2 e')%R).
  { rewrite Hx. split.
    - apply Rmult_le_compat_r; [lra |].
      apply Rmult_le_reg_r with (IZR (Z.pos m2)); [exact Hm2 |].
      unfold Rdiv. rewrite Rmult_assoc, Rinv_l, Rmult_1_r by lra.
      rewrite <- mult_IZR. apply IZR_le. exact Hq1.
    - apply Rmult_lt_compat_r; [lra |].
      apply Rmult_lt_reg_r with (IZR (Z.pos m2)); [exact Hm2 |].
      unfold Rdiv. rewrite Rmult_assoc, Rinv_l, Rmult_1_r by lra.
      rewrite <- mult_IZR. apply IZR_lt. exact Hq2. }
  destruct (binary_round_aux_rel (xorb sx sy) q e' l x Hdq ltac:(lia) Hloc)
    as (m & e & dl & Hr & Hmag & Hval & Hdl).
  exists m, e, dl.
  split; [rewrite Hdiv; exact Hr |].
  split; [lia |]. split; [| exact Hdl].
  rewrite !F2R_finite, Hval. unfold x.
  destruct sx, sy; cbn [xorb]; field; lra.
Qed.

(** Relative accuracy of the square root of a positive finite double. *)
Lemma fsqrt_rel (m1 : positive) (e1 : Z) :
  -2000 <= Z.pos (digits2_pos m1) + e1 <= 2000 ->
  exists (m : positive) (e : Z) (dl : R),
    fsqrt (S754_finite false m1 e1) = S754_finite false m e
    /\ (Z.pos (digits2_pos m1) + e1 + 1) / 2
       <= Z.pos (digits2_pos m) + e
       <= (Z.pos (digits2_pos m1) + e1 + 1) / 2 + 1
    /\ (F2R (S754_finite false m e)
        = sqrt (F2R (S754_finite false m1 e1)) * (1 + dl))%R
    /\ (Rabs dl <= bpow2 (-52))%R.
Proof.
  intros HM.
  pose proof (Z.div_mod (Z.pos (digits2_pos m1) + e1 + 1) 2 ltac:(lia)) as Hdm.
  pose proof (Z.mod_pos_bound (Z.pos (digits2_pos m1) + e1 + 1) 2 ltac:(lia)).
  destruct (fsqrt_core m1 e1 HM)
    as (q & e' & s & l & Hsq & Hs & He' & [Hq1 Hq2] & Hdq & Hmq).
  set (x := sqrt (IZR (Z.pos m1) * bpow2 e1)).
  pose proof (bpow2_pos e') as Hb'.
  assert (Hx : x = (sqrt (IZR (Z.pos m1 * 2 ^ s)) * bpow2 e')%R).
  { unfold x. rewrite He'.
    replace (2 * e' + s) with (s + e' + e') by lia.
    rewrite !bpow2_add, mult_IZR, IZR_pow2 by exact Hs.
    rewrite <- !Rmult_assoc, Rmult_assoc.
    rewrite sqrt_mult_alt.
    - rewrite sqrt_square by lra. reflexivity.
    - apply Rmult_le_pos; [apply IZR_le; lia | left; apply bpow2_pos]. }
  assert (Hloc : (IZR (Z.pos q) * bpow2 e' <= x
                  < IZR (Z.pos q + 1) * bpow2 e')%R).
  { rewrite Hx. split.
    - apply Rmult_le_compat_r; [lra |].
      rewrite <- (sqrt_square (IZR (Z.pos q))) by (apply IZR_le; lia).
      apply sqrt_le_1_alt. rewrite <- mult_IZR. apply IZR_le. exact Hq1.
    - apply Rmult_lt_compat_r; [lra |].
      rewrite <- (sqrt_square (IZR (Z.pos q + 1))) by (apply IZR_le; lia).
      apply sqrt_lt_1_alt. rewrite <- mult_IZR. split.
      + apply IZR_le. lia.
      + apply IZR_lt. exact Hq2. }
  destruct (binary_round_aux_rel false q e' l x Hdq ltac:(lia) Hloc)
    as (m & e & dl & Hr & Hmag & Hval & Hdl).
  exists m, e, dl.
  split; [rewrite Hsq; exact Hr |].
  split; [lia |]. split; [| exact Hdl].
  rewrite !F2R_finite, !Rmult_1_l. exact Hval.
Qed.

(** Rounding a mantissa that already has the target exponent changes
    nothing, whatever the sign. *)
Lemma binary_round_aux_exact_signed (sx : bool) (m : positive) (e : Z) :
  fexp prec emax (Z.pos (digits2_pos m) + e) <= e ->
  e <= emax - prec ->
  binary_round_aux prec emax sx (Z.pos m) e loc_Exact = S754_finite sx m e.
Proof.
  intros Hf He.
  pose proof (shr_fexp_exact m e Hf) as Hshr.
  unfold binary_round_aux. rewrite Hshr.
  cbn [shr_m loc_of_shr_record round_nearest_even].
  rewrite Hshr. cbn [shr_m].
  apply Z.leb_le in He. rewrite He. reflexivity.
Qed.

(** A mantissa of at most 53 digits above the smallest exponent is not
    rounded: it is only shifted to its canonical exponent. *)
Lemma binary_round_exact (s : bool) (p : positive) (e : Z) :
  Z.pos (digits2_pos p) <= 53 -> -1074 <= e <= 971 ->
  exists (m : positive) (e' : Z),
    binary_round prec emax s p e = S754_finite s m e'
    /\ Z.pos (digits2_pos m) + e' = Z.pos (digits2_pos p) + e
    /\ (IZR (Z.pos m) * bpow2 e' = IZR (Z.pos p) * bpow2 e)%R.
Proof.
  intros Hd He.
  unfold binary_round, shl_align. rewrite fexp_64.
  set (t := Z.max (Z.pos (digits2_pos p) + e - 53) (-1074)).
  destruct (t - e) as [| k | d] eqn:Hk; [| unfold t in Hk; lia |].
  - exists p, e.
    rewrite binary_round_aux_exact_signed
      by (rewrite ?fexp_64; unfold emax, prec; lia).
    repeat split; reflexivity.
  - exists (Pos.iter xO p d), t.
    pose proof (digits2_pos_iter_xO p d) as Hdig.
    rewrite binary_round_aux_exact_signed;
      [| rewrite fexp_64, Hdig;
         replace (Z.pos (digits2_pos p) + Z.pos d + t)
           with (Z.pos (digits2_pos p) + e) by lia;
         fold t; lia
       | unfold emax, prec; lia].
    split; [reflexivity |]. split; [lia |].
    rewrite iter_xO_value, mult_IZR, IZR_pow2 by lia.
    rewrite Rmult_assoc, <- bpow2_add. do 2 f_equal. lia.
Qed.

(** An int of at most 53 bits is converted to a double without rounding. *)
Lemma int_to_float_exact (i : Z) :
  i <> 0 -> Z.abs i < 2 ^ 53 ->
  exists (m : positive) (e : Z),
    int_to_float i = Ok (S754_finite (i <? 0) m e)
    /\ 1 <= Z.pos (digits2_pos m) + e <= 53
    /\ F2R (S754_finite (i <? 0) m e) = IZR i.
Proof.
  intros Hi Hb.
  assert (Hdig : forall p : positive,
             Z.pos p < 2 ^ 53 -> 1 <= Z.pos (digits2_pos p) <= 53).
  { intros p Hp. pose proof (digits2_pos_bounds p) as [Plo Phi].
    split; [lia |].
    destruct (Z.le_gt_cases (Z.pos (digits2_pos p)) 53) as [H | H];
      [exact H |].
    assert (2 ^ 53 <= 2 ^ (Z.pos (digits2_pos p) - 1))
      by (apply Z.pow_le_mono_r; lia).
    lia. }
  unfold int_to_float, round_int.
  destruct i as [| p | p]; [contradiction | |]; cbn [binary_normalize];
    pose proof (Hdig p ltac:(lia)) as Hp.
  - destruct (binary_round_exact false p 0) as (m & e & Hf & Hm & Hv);
      [lia | lia |].
    rewrite Hf. cbn [is_inf]. exists m, e.
    split; [reflexivity |]. split; [lia |].
    rewrite F2R_finite, Hv. change (Z.pos p <? 0) with false.
    cbn [bpow2]. cbv iota. rewrite Rmult_1_l. apply Rmult_1_r.
  - destruct (binary_round_exact true p 0) as (m & e & Hf & Hm & Hv);
      [lia | lia |].
    rewrite Hf. cbn [is_inf]. exists m, e.
    split; [reflexivity |]. split; [lia |].
    rewrite F2R_finite, Hv. change (Z.neg p <? 0) with true.
    cbn [bpow2]. cbv iota.
    change (IZR (Z.neg p)) with (- IZR (Z.pos p))%R.
    generalize (IZR (Z.pos p)). intros; ring.
Qed.

Lemma Rabs_le_bounds (x b : R) : (Rabs x <= b)%R -> (- b <= x <= b)%R.
Proof.
  intros H. pose proof (Rle_abs x). pose proof (Rle_abs (- x)) as H'.
  rewrite Rabs_Ropp in H'. lra.
Qed.

(** Three relative errors of at most [u], two in the numerator and one in the
    denominator, make a relative error of at most [4 u]. *)
Lemma rel_error_compose (u d1 d2 d3 : R) :
  (0 <= u <= / 8)%R ->
  (Rabs d1 <= u)%R -> (Rabs d2 <= u)%R -> (Rabs d3 <= u)%R ->
  (Rabs ((1 + d1) * (1 + d3) / (1 + d2) - 1) <= 4 * u)%R.
Proof.
  intros Hu H1 H2 H3.
  apply Rabs_le_bounds in H1, H2, H3.
  assert (Hpos : (0 < 1 + d2)%R) by lra.
  set (X := ((1 + d1) * (1 + d3) / (1 + d2) - 1)%R).
  assert (HX : (X * (1 + d2) = d1 + d3 + d1 * d3 - d2)%R)
    by (unfold X; field; lra).
  assert (Hp1 : (0 <= (u - d1) * (u - d3))%R)
    by (apply Rmult_le_pos; lra).
  assert (Hp2 : (0 <= (u + d1) * (u + d3))%R)
    by (apply Rmult_le_pos; lra).
  assert (Hp3 : (0 <= (u - d1) * (u + d3))%R)
    by (apply Rmult_le_pos; lra).
  assert (Hp4 : (0 <= (u + d1) * (u - d3))%R)
    by (apply Rmult_le_pos; lra).
  assert (Hu2 : (0 <= u * u <= u * / 8)%R).
  { split; [apply Rmult_le_pos; lra |].
    apply Rmult_le_compat_l; lra. }
  apply Rabs_le. split.
  - apply Rmult_le_reg_r with (1 + d2)%R; [exact Hpos |].
    rewrite HX.
    assert (0 <= u * (u + d2))%R by (apply Rmult_le_pos; lra).
    lra.
  - apply Rmult_le_reg_r with (1 + d2)%R; [exact Hpos |].
    rewrite HX.
    assert (0 <= u * (u + d2))%R by (apply Rmult_le_pos; lra).
    lra.
Qed.

(** What [PyLong_AsDouble] returns is the rounded int. *)
Lemma int_to_float_round_int (i : Z) (f : spec_float) :
  int_to_float i = Ok f -> f = round_int i.
Proof.
  unfold int_to_float. destruct (is_inf (round_int i)); [discriminate |].
  intros [= <-]. reflexivity.
Qed.

(** Cell 1 on ints of at most 53 bits, in its domain: the double returned
    and its distance to the exact quotient. *)
Lemma z_statistic_int_rel (a b sg k : Z) :
  Z.abs (a - b) < 2 ^ 53 ->
  sg <> 0 -> Z.abs sg < 2 ^ 53 ->
  0 < k < 2 ^ 53 ->
  exists r : spec_float,
    z_statistic (PyInt a) (PyInt b) (PyInt sg) (PyInt k) = Ok r
    /\ r = fdiv (round_int (a - b)) (fdiv (round_int sg) (fsqrt (round_int k)))
    /\ (Rabs (F2R r - IZR (a - b) / (IZR sg / sqrt (IZR k)))
        <= bpow2 (-50) * Rabs (IZR (a - b) / (IZR sg / sqrt (IZR k))))%R.
Proof.
  intros Hab Hsg0 Hsg Hk.
  assert (H : exists r : spec_float,
             z_statistic (PyInt a) (PyInt b) (PyInt sg) (PyInt k) = Ok r
             /\ (Rabs (F2R r - IZR (a - b) / (IZR sg / sqrt (IZR k)))
                 <= bpow2 (-50)
                    * Rabs (IZR (a - b) / (IZR sg / sqrt (IZR k))))%R).
  { unfold z_statistic. cbn [Py.sub bind].
    (* sqrt(n) *)
    destruct (int_to_float_exact k) as (mn & en & Hfn & Hmn & Hvn);
      [lia | lia |].
    replace (k <? 0) with false in Hfn, Hvn by (symmetry; apply Z.ltb_ge; lia).
    destruct (fsqrt_rel mn en ltac:(lia))
      as (ms & es & d1 & Hs & Hms & Hvs & Hd1).
    rewrite Hvn in Hvs.
    assert (Hest : 1 <= (Z.pos (digits2_pos mn) + en + 1) / 2 <= 27).
    { split.
      - apply Z.div_le_lower_bound; lia.
      - apply Z.div_le_upper_bound; lia. }
    assert (Hsqrt : math.sqrt (PyInt k) = Ok (S754_finite false ms es)).
    { unfold math.sqrt. cbn [as_double]. rewrite Hfn. cbn [bind].
      rewrite Hs. reflexivity. }
    rewrite Hsqrt. cbn [bind].
    (* sigma / sqrt(n) *)
    destruct (int_to_float_exact sg) as (mg & eg & Hfs & Hmg & Hvg);
      [lia | lia |].
    destruct (fdiv_rel (sg <? 0) false mg ms eg es ltac:(lia))
      as (mq & eq & d2 & Hq & Hmq & Hvq & Hd2).
    rewrite xorb_false_r in Hq, Hvq. rewrite Hvg, Hvs in Hvq.
    unfold truediv at 1. cbn [as_double]. rewrite Hfs. cbn [bind is_zero].
    rewrite Hq.
    (* (x_bar - mu) / (sigma / sqrt(n)) *)
    unfold truediv. cbn [as_double is_zero].
    destruct (Z.eq_dec (a - b) 0) as [Hd | Hd].
    - rewrite Hd, int_to_float_zero. cbn [bind].
      exists (S754_zero (sg <? 0)). split; [reflexivity |].
      cbn [F2R]. set (X := (IZR sg / sqrt (IZR k))%R).
      replace (0 / X)%R with 0%R by (unfold Rdiv; ring).
      rewrite Rminus_diag, Rabs_R0. lra.
    - destruct (int_to_float_exact (a - b)) as (md & ed & Hfd & Hmd & Hvd);
        [lia | lia |].
      rewrite Hfd. cbn [bind].
      destruct (fdiv_rel (a - b <? 0) (sg <? 0) md mq ed eq ltac:(lia))
        as (mr & er & d3 & Hr & Hmr & Hvr & Hd3).
      rewrite Hvd, Hvq in Hvr.
      rewrite Hr.
      exists (S754_finite (xorb (a - b <? 0) (sg <? 0)) mr er).
      split; [reflexivity |].
      rewrite Hvr.
      assert (Hu : (bpow2 (-52) = / 4503599627370496)%R) by reflexivity.
      assert (Hu' : (bpow2 (-50) = / 1125899906842624)%R) by reflexivity.
      rewrite Hu in Hd1, Hd2, Hd3. rewrite Hu'.
      assert (HSQ : (0 < sqrt (IZR k))%R)
        by (apply sqrt_lt_R0, IZR_lt; lia).
      assert (HSG : IZR sg <> 0%R) by (apply not_0_IZR; exact Hsg0).
      pose proof (Rabs_le_bounds _ _ Hd1) as B1.
      pose proof (Rabs_le_bounds _ _ Hd2) as B2.
      set (Zr := (IZR (a - b) / (IZR sg / sqrt (IZR k)))%R).
      replace (IZR (a - b) / (IZR sg / (sqrt (IZR k) * (1 + d1)) * (1 + d2))
               * (1 + d3) - Zr)%R
        with (Zr * ((1 + d1) * (1 + d3) / (1 + d2) - 1))%R
        by (unfold Zr; field; repeat split; lra).
      rewrite Rabs_mult, Rmult_comm.
      apply Rmult_le_compat_r; [apply Rabs_pos |].
      eapply Rle_trans;
        [apply (rel_error_compose (/ 4503599627370496)); [lra | assumption ..] |].
      lra. }
  destruct H as (r & Hr & Hacc). exists r.
  split; [exact Hr |]. split; [| exact Hacc].
  destruct (z_statistic_formula _ _ _ _ _ Hr)
    as (d & fd & fs & fn & Hsub & Hd & Hs & Hn & ->).
  cbn [Py.sub] in Hsub. injection Hsub as <-.
  cbn [as_double] in Hd, Hs, Hn.
  rewrite (int_to_float_round_int _ _ Hd), (int_to_float_round_int _ _ Hs),
    (int_to_float_round_int _ _ Hn).
  reflexivity.
Qed.

(** X7: accuracy of cell 1.  For ints of at most 53 bits (the difference of the
    means, the standard deviation and the sample size), in the domain
    [sigma <> 0], [n > 0], the double computed by cell 1 differs from the
    exact real number [(x_bar - mu) / (sigma / sqrt n)] by a relative error
    of at most [2^-50]: the three roundings (square root, two divisions)
    are the only source of error. *)
Theorem z_statistic_accuracy (a b sg k : Z) :
  Z.abs (a - b) < 2 ^ 53 ->
  sg <> 0 -> Z.abs sg < 2 ^ 53 ->
  0 < k < 2 ^ 53 ->
  exists r : spec_float,
    z_statistic (PyInt a) (PyInt b) (PyInt sg) (PyInt k) = Ok r
    /\ (Rabs (F2R r - IZR (a - b) / (IZR sg / sqrt (IZR k)))
        <= bpow2 (-50) * Rabs (IZR (a - b) / (IZR sg / sqrt (IZR k))))%R.
Proof.
  intros Hab Hsg0 Hsg Hk.
  destruct (z_statistic_int_rel a b sg k Hab Hsg0 Hsg Hk)
    as (r & Hr & _ & Hacc).
  exists r. split; [exact Hr | exact Hacc].
Qed.

Lemma z_statistic_accuracy_witness :
  exists r : spec_float,
    z_statistic (PyInt 103) (PyInt 100) (PyInt 16) (PyInt 40) = Ok r
    /\ (Rabs (F2R r - IZR (103 - 100) / (IZR 16 / sqrt (IZR 40)))
        <= bpow2 (-50) * Rabs (IZR (103 - 100) / (IZR 16 / sqrt (IZR 40))))%R.
Proof. apply (z_statistic_accuracy 103 100 16 40); lia. Defined.

(** C1: the z-statistic is computed as
    [(x_bar - mu) / (sigma / sqrt n)].  Whenever cell 1 returns, what it
    returns is the IEEE quotient of the converted difference by the IEEE
    quotient of the converted sigma by the IEEE square root of the
    converted n.  For ints of at most 53 bits with [sigma <> 0] and
    [n > 0] it does return, and the double returned differs from the exact
    real number [(x_bar - mu) / (sigma / sqrt n)] by a relative error of at
    most [2^-50].  On the worked example 103, 100, 16, 40 the double
    returned is the one printed as 1.1858541225631423: it is the double
    nearest to that decimal, and it is within half a unit in the last place
    of the exact real number [(103 - 100) / (16 / sqrt 40)]. *)
Theorem z_computed_as_formula :
  (forall (xb m sg k : value) (r : spec_float),
      z_statistic xb m sg k = Ok r ->
      exists (d : value) (fd fs fn : spec_float),
        Py.sub xb m = Ok d /\ as_double d = Ok fd /\
        as_double sg = Ok fs /\ as_double k = Ok fn /\
        r = fdiv fd (fdiv fs (fsqrt fn)))
  /\ (forall a b sg k : Z,
      Z.abs (a - b) < 2 ^ 53 ->
      sg <> 0 -> Z.abs sg < 2 ^ 53 ->
      0 < k < 2 ^ 53 ->
      exists r : spec_float,
        z_statistic (PyInt a) (PyInt b) (PyInt sg) (PyInt k) = Ok r
        /\ r = fdiv (round_int (a - b))
                 (fdiv (round_int sg) (fsqrt (round_int k)))
        /\ (Rabs (F2R r - IZR (a - b) / (IZR sg / sqrt (IZR k)))
            <= bpow2 (-50)
               * Rabs (IZR (a - b) / (IZR sg / sqrt (IZR k))))%R)
  /\ z = Ok z_out
  /\ z = Ok (fdiv (round_int (103 - 100))
               (fdiv (round_int 16) (fsqrt (round_int 40))))
  /\ (Rabs (F2R z_out - 1.1858541225631423) < half_ulp (-52))%R
  /\ (Rabs (F2R z_out - (103 - 100) / (16 / sqrt 40)) < half_ulp (-52))%R.
Proof.
  split; [exact z_statistic_formula |].
  split; [exact z_statistic_int_rel |].
  split; [vm_compute; reflexivity |].
  split; [vm_compute; reflexivity |].
  split.
  - unfold z_out; unfold_doubles. apply Rabs_def1; lra.
  - destruct (sqrt_between 6.3245553203367586 6.3245553203367587 40)
      as [Hlo Hhi]; try lra.
    replace ((103 - 100) / (16 / sqrt 40))%R
      with (3 * sqrt 40 / 16)%R by (field; lra).
    unfold z_out; unfold_doubles. apply Rabs_def1; lra.
Qed.

Lemma z_computed_as_formula_witness :
  (exists (d : value) (fd fs fn : spec_float),
      Py.sub x_bar mu = Ok d /\ as_double d = Ok fd /\
      as_double sigma = Ok fs /\ as_double n = Ok fn /\
      z_out = fdiv fd (fdiv fs (fsqrt fn)))
  /\ exists r : spec_float,
      z_statistic (PyInt 103) (PyInt 100) (PyInt 16) (PyInt 40) = Ok r
      /\ r = fdiv (round_int (103 - 100))
               (fdiv (round_int 16) (fsqrt (round_int 40)))
      /\ (Rabs (F2R r - IZR (103 - 100) / (IZR 16 / sqrt (IZR 40)))
          <= bpow2 (-50)
             * Rabs (IZR (103 - 100) / (IZR 16 / sqrt (IZR 40))))%R.
Proof.
  split.
  - apply (proj1 z_computed_as_formula x_bar mu sigma n z_out).
    vm_compute. reflexivity.
  - apply (proj1 (proj2 z_computed_as_formula) 103 100 16 40); lia.
Defined.

(** Subtracting from 1 a double of [0.5, 1] involves no rounding. *)
Lemma fsub_one_exact (c : spec_float) :
  valid_binary prec emax c = true ->
  SFleb half c = true -> SFleb c one = true ->
  F2R (fsub one c) = (1 - F2R c)%R.
Proof.
  intros Hv H0 H1.
  destruct c as [s | s | | s m e]; try discriminate.
  - destruct s; discriminate.
  - destruct s; [discriminate |].
    cbn [valid_binary] in Hv. unfold bounded, canonical_mantissa in Hv.
    apply andb_prop in Hv as [Hcan Hemax].
    apply Z.eqb_eq in Hcan. rewrite fexp_64 in Hcan.
    pose proof (digits2_pos_bounds m) as [Mlo Mhi].
    unfold SFleb, SFcompare, one in H1.
    unfold SFleb, SFcompare, half in H0.
    rewrite Pos.compare_cont_spec in H1. cbn [Pos.switch_Eq] in H1.
    assert (He53 : -53 <= e).
    { destruct (Z.compare_spec (-53) e) as [Heq | Hlt | Hgt];
        [lia | lia | discriminate]. }
    clear H0.
    destruct (Z.compare_spec e (-52)) as [Heq | Hlt | Hgt]; [| | discriminate].
    + (* e = -52: the only such double is 1 itself *)
      subst e.
      assert (Hd : Z.pos (digits2_pos m) = 53) by lia.
      rewrite Hd in Mlo. change (2 ^ (53 - 1)) with 4503599627370496 in Mlo.
      assert (Hm : m = 4503599627370496%positive).
      { apply Pos.le_antisym.
        - intros Hgt. rewrite Hgt in H1. discriminate.
        - apply Pos2Z.pos_le_pos. exact Mlo. }
      subst m. change (fsub one (S754_finite false 4503599627370496 (-52)))
        with (S754_zero false).
      cbn [F2R cond_Zopp bpow2].
      change (Z.pow_pos 2 52) with 4503599627370496. field.
    + (* e = -53: the difference has at most 53 digits *)
      assert (He : e = -53) by lia. subst e. clear Hlt He53 H1.
      assert (Hd : Z.pos (digits2_pos m) = 53) by lia.
      rewrite Hd in Mlo, Mhi.
      unfold fsub, SFsub, one.
      change (Z.min (-52) (-53)) with (-53).
      change (shl_align 4503599627370496 (-52) (-53))
        with (9007199254740992%positive, -53).
      assert (Hal2 : shl_align m (-53) (-53) = (m, -53)) by reflexivity.
      rewrite Hal2. cbn [fst cond_Zopp].
      change (Z.pos 9007199254740992) with (2 ^ 53).
      destruct (2 ^ 53 - Z.pos m) as [| D | D] eqn:HD; try lia.
      cbn [binary_normalize].
      assert (HDd : Z.pos (digits2_pos D) <= 53).
      { pose proof (digits2_pos_bounds D) as [Dlo Dhi].
        destruct (Z.le_gt_cases (Z.pos (digits2_pos D)) 53) as [H | H];
          [exact H |].
        assert (2 ^ 53 <= 2 ^ (Z.pos (digits2_pos D) - 1))
          by (apply Z.pow_le_mono_r; lia).
        lia. }
      destruct (binary_round_exact false D (-53) HDd ltac:(lia))
        as (m' & e' & -> & _ & Hval).
      rewrite !F2R_finite, Hval, <- HD, minus_IZR.
      change (bpow2 (-53)) with (/ IZR (2 ^ 53))%R.
      generalize (IZR (Z.pos m)). intros x.
      assert (IZR (2 ^ 53) <> 0%R) by (apply not_0_IZR; discriminate).
      field. assumption.
Qed.

(** X8: cell 7 on the upper half of the unit interval: when the probability
    passed to it is a double in [0.5, 1], the p-value returned is exactly
    the real number [1 - c]; the subtraction adds no rounding error. *)
Theorem pval_exact_above_half (c : spec_float) :
  valid_binary prec emax c = true ->
  SFleb half c = true -> SFleb c one = true ->
  exists p : spec_float,
    pval c = Ok (PyFloat p) /\ F2R p = (1 - F2R c)%R.
Proof.
  intros Hv H0 H1. exists (fsub one c). split.
  - unfold pval, Py.sub. cbn [as_double bind].
    change (int_to_float 1) with (as_double (PyInt 1)).
    rewrite as_double_one. reflexivity.
  - apply fsub_one_exact; assumption.
Qed.

Lemma pval_exact_above_half_witness :
  exists p : spec_float,
    pval cdf_out = Ok (PyFloat p) /\ F2R p = (1 - F2R cdf_out)%R.
Proof. apply (pval_exact_above_half cdf_out); reflexivity. Defined.

(** Subtracting from 1 a double of [0, 1]: the result is the real difference
    up to a relative error of at most [2^-52]. *)
Lemma fsub_one_rel (c : spec_float) :
  valid_binary prec emax c = true ->
  SFleb (S754_zero false) c = true -> SFleb c one = true ->
  (Rabs (F2R (fsub one c) - (1 - F2R c)) <= bpow2 (-52) * (1 - F2R c))%R.
Proof.
  intros Hv H0 H1.
  assert (Hone : F2R one = 1%R).
  { unfold one. cbn [F2R cond_Zopp bpow2].
    change (Z.pow_pos 2 52) with 4503599627370496. field. }
  assert (Hu : (0 < bpow2 (-52))%R) by apply bpow2_pos.
  destruct c as [s | s | | s m e]; try discriminate.
  - (* c is a zero *)
    replace (fsub one (S754_zero s)) with one by (destruct s; reflexivity).
    rewrite Hone. cbn [F2R].
    replace (1 - (1 - 0))%R with 0%R by ring. rewrite Rabs_R0. lra.
  - destruct s; discriminate.
  - destruct s; [discriminate |].
    cbn [valid_binary] in Hv. unfold bounded, canonical_mantissa in Hv.
    apply andb_prop in Hv as [Hcan Hemax].
    apply Z.eqb_eq in Hcan. rewrite fexp_64 in Hcan.
    pose proof (digits2_pos_bounds m) as [Mlo Mhi].
    unfold SFleb, SFcompare, one in H1.
    rewrite Pos.compare_cont_spec in H1. cbn [Pos.switch_Eq] in H1.
    destruct (Z.compare_spec e (-52)) as [Heq | Hlt | Hgt]; [| | discriminate].
    + (* e = -52: the only such double is 1 itself *)
      subst e.
      assert (Hd : Z.pos (digits2_pos m) = 53) by lia.
      rewrite Hd in Mlo. change (2 ^ (53 - 1)) with 4503599627370496 in Mlo.
      assert (Hm : m = 4503599627370496%positive).
      { apply Pos.le_antisym.
        - intros Hgt. rewrite Hgt in H1. discriminate.
        - apply Pos2Z.pos_le_pos. exact Mlo. }
      subst m. change (fsub one (S754_finite false 4503599627370496 (-52)))
        with (S754_zero false).
      fold one. rewrite Hone. cbn [F2R].
      replace (0 - (1 - 1))%R with 0%R by ring. rewrite Rabs_R0. lra.
    + (* e < -52: the difference is positive and below 1 *)
      assert (Hdm : Z.pos (digits2_pos m) <= 53) by lia.
      assert (He : -1074 <= e) by lia.
      assert (Hm53 : Z.pos m < 2 ^ 53).
      { eapply Z.lt_le_trans; [exact Mhi |]. apply Z.pow_le_mono_r; lia. }
      assert (Hpe : 2 ^ 53 <= 2 ^ (- e)) by (apply Z.pow_le_mono_r; lia).
      assert (Hc : (1 - F2R (S754_finite false m e)
                    = IZR (2 ^ (- e) - Z.pos m) * bpow2 e)%R).
      { rewrite F2R_finite, minus_IZR, IZR_pow2 by lia.
        rewrite Rmult_minus_distr_r, <- bpow2_add.
        replace (- e + e) with 0 by lia. cbn [bpow2]. ring. }
      rewrite Hc.
      unfold fsub, SFsub, one.
      replace (Z.min (-52) e) with e by lia.
      assert (Hal1 : exists d, shl_align 4503599627370496%positive (-52) e
                               = (Pos.iter xO 4503599627370496%positive d, e)
                               /\ Z.pos d = - 52 - e).
      { unfold shl_align. destruct (e - -52) as [| k | d] eqn:Hk; try lia.
        exists d; split; [reflexivity | lia]. }
      destruct Hal1 as (d & -> & Hd).
      assert (Hal2 : shl_align m e e = (m, e)).
      { unfold shl_align. rewrite Z.sub_diag. reflexivity. }
      rewrite Hal2. cbn [fst cond_Zopp].
      rewrite iter_xO_value.
      assert (Hpow : 4503599627370496 * 2 ^ Z.pos d = 2 ^ (- e)).
      { change 4503599627370496 with (2 ^ 52).
        rewrite <- Z.pow_add_r by lia. (f_equal; lia). }
      rewrite Hpow.
      destruct (2 ^ (- e) - Z.pos m) as [| D | D] eqn:HD; try lia.
      cbn [binary_normalize].
      pose proof (digits2_pos_bounds D) as [Dlo Dhi].
      assert (HDlt : Z.pos D < 2 ^ (- e)) by lia.
      assert (HDe : Z.pos (digits2_pos D) + e <= 0).
      { destruct (Z.le_gt_cases (Z.pos (digits2_pos D) + e) 0) as [H | H];
          [exact H |].
        assert (2 ^ (- e) <= 2 ^ (Z.pos (digits2_pos D) - 1))
          by (apply Z.pow_le_mono_r; lia).
        lia. }
      assert (HxD : (0 < IZR (Z.pos D) * bpow2 e)%R).
      { apply Rmult_lt_0_compat; [apply IZR_lt; lia | apply bpow2_pos]. }
      destruct (Z.le_gt_cases (Z.pos (digits2_pos D)) 53) as [Hshort | Hlong].
      * (* at most 53 digits: no rounding *)
        destruct (binary_round_exact false D e Hshort ltac:(lia))
          as (m' & e' & -> & _ & Hval).
        rewrite F2R_finite, Hval, Rmult_1_l, Rminus_diag, Rabs_R0.
        apply Rmult_le_pos; lra.
      * (* more than 53 digits: one rounding *)
        unfold binary_round, shl_align. rewrite fexp_64.
        destruct (Z.max (Z.pos (digits2_pos D) + e - 53) (-1074) - e)
          as [| j | j] eqn:Hj; [lia | | lia].
        assert (Hloc : (IZR (Z.pos D) * bpow2 e <= IZR (Z.pos D) * bpow2 e
                        < IZR (Z.pos D + 1) * bpow2 e)%R).
        { split; [apply Rle_refl |].
          apply Rmult_lt_compat_r; [apply bpow2_pos | apply IZR_lt; lia]. }
        destruct (binary_round_aux_rel false D e loc_Exact _
                    ltac:(lia) ltac:(lia) Hloc)
          as (m' & e' & dl & -> & _ & Hval & Hdl).
        rewrite F2R_finite, Hval, Rmult_1_l.
        replace (IZR (Z.pos D) * bpow2 e * (1 + dl) - IZR (Z.pos D) * bpow2 e)%R
          with (dl * (IZR (Z.pos D) * bpow2 e))%R by ring.
        rewrite Rabs_mult, (Rabs_pos_eq (IZR (Z.pos D) * bpow2 e)) by lra.
        apply Rmult_le_compat_r; lra.
Qed.

(** X9: accuracy of cell 7: for every double [c] in [0, 1], the p-value returned
    is the real number [1 - c] up to a relative error of at most [2^-52]. *)
Theorem pval_relative_accuracy (c : spec_float) :
  valid_binary prec emax c = true ->
  SFleb (S754_zero false) c = true -> SFleb c one = true ->
  exists p : spec_float,
    pval c = Ok (PyFloat p)
    /\ (Rabs (F2R p - (1 - F2R c)) <= bpow2 (-52) * (1 - F2R c))%R.
Proof.
  intros Hv H0 H1. exists (fsub one c). split.
  - unfold pval, Py.sub. cbn [as_double bind].
    change (int_to_float 1) with (as_double (PyInt 1)).
    rewrite as_double_one. reflexivity.
  - apply fsub_one_rel; assumption.
Qed.

Lemma pval_relative_accuracy_witness :
  exists p : spec_float,
    pval cdf_out = Ok (PyFloat p)
    /\ (Rabs (F2R p - (1 - F2R cdf_out))
        <= bpow2 (-52) * (1 - F2R cdf_out))%R.
Proof. apply (pval_relative_accuracy cdf_out); reflexivity. Defined.

(* ================================================================== *)
(** * Properties of the integral *)
(* ================================================================== *)

Local Open Scope R_scope.

(** A function whose derivative vanishes everywhere is constant. *)
Lemma zero_derivative_constant (D : R -> R) :
  (forall x, derivable_pt_lim D x 0) -> forall x y, D x = D y.
Proof.
  intros HD.
  assert (pr : derivable D) by (intros x; exists 0; apply HD).
  assert (Hc : constant D).
  { apply (null_derivative_1 D pr).
    intros x. apply derive_pt_eq_0, HD. }
  exact Hc.
Qed.

Section Integral_facts.

Variable f : R -> R.
Hypothesis f_cont : continuity f.

Lemma integral_refl (a : R) : integral f f_cont a a = 0.
Proof. apply RiemannInt_P9. Qed.

Lemma integral_chasles (a b c : R) :
  integral f f_cont a b + integral f f_cont b c = integral f f_cont a c.
Proof. apply RiemannInt_P26. Qed.

(** The fundamental theorem: [integral a] is an antiderivative of [f]. *)
Lemma integral_derivable (a x : R) :
  derivable_pt_lim (integral f f_cont a) x (f x).
Proof.
  set (lo := Rmin a x - 1). set (hi := Rmax a x + 1).
  assert (Hlo : lo < a /\ lo < x).
  { unfold lo; split; [pose proof (Rmin_l a x) | pose proof (Rmin_r a x)]; lra. }
  assert (Hhi : a < hi /\ x < hi).
  { unfold hi; split; [pose proof (Rmax_l a x) | pose proof (Rmax_r a x)]; lra. }
  assert (h : lo <= hi) by lra.
  assert (C0 : forall y, lo <= y <= hi -> continuity_pt f y)
    by (intros; apply f_cont).
  pose proof (@RiemannInt_P28 f lo hi x h C0
                (conj (Rlt_le _ _ (proj2 Hlo)) (Rlt_le _ _ (proj2 Hhi)))) as HP.
  apply (derivable_pt_lim_locally_ext
           (fun y => primitive h (FTC_P1 h C0) y - integral f f_cont lo a)
           _ x lo hi).
  - lra.
  - intros y Hy. unfold primitive.
    destruct (Rle_dec lo y) as [H1 | H1]; [| lra].
    destruct (Rle_dec y hi) as [H2 | H2]; [| lra].
    rewrite (RiemannInt_P5 (FTC_P1 h C0 H1 H2) (cont_integrable f f_cont lo y)).
    fold (integral f f_cont lo y).
    rewrite <- (integral_chasles lo a y). ring.
  - replace (f x) with (f x - 0) by ring.
    apply derivable_pt_lim_minus; [exact HP | apply derivable_pt_lim_const].
Qed.

(** Any antiderivative computes the integral. *)
Lemma integral_antiderivative (H : R -> R) (a b : R) :
  (forall x, derivable_pt_lim H x (f x)) ->
  integral f f_cont a b = H b - H a.
Proof.
  intros HH.
  assert (HD : forall x, derivable_pt_lim
                 (fun y => integral f f_cont a y - H y) x 0).
  { intros x. replace 0 with (f x - f x) by ring.
    apply derivable_pt_lim_minus; [apply integral_derivable | apply HH]. }
  pose proof (zero_derivative_constant _ HD b a) as Hba; simpl in Hba.
  rewrite integral_refl in Hba. lra.
Qed.

(** Mean value: the integral over [a, b] is a value of [f] times [b - a]. *)
Lemma integral_mean_value (a b : R) :
  a < b -> exists c, a < c < b /\ integral f f_cont a b = f c * (b - a).
Proof.
  intros Hab.
  destruct (MVT_cor2 (integral f f_cont a) f a b Hab) as (c & Hc & Hin).
  { intros; apply integral_derivable. }
  exists c; split; [exact Hin |].
  rewrite integral_refl in Hc. lra.
Qed.

End Integral_facts.

(** The integral is linear in the integrand. *)
Lemma integral_linear (f g fg : R -> R) (k : R)
      (Hf : continuity f) (Hg : continuity g) (Hfg : continuity fg) (a b : R) :
  (forall t, fg t = f t + k * g t) ->
  integral fg Hfg a b = integral f Hf a b + k * integral g Hg a b.
Proof.
  intros Heq.
  rewrite (integral_antiderivative fg Hfg
             (fun y => integral f Hf a y + k * integral g Hg a y)).
  - rewrite !integral_refl. ring.
  - intros x. rewrite Heq.
    apply (derivable_pt_lim_plus (integral f Hf a)
             (fun y => k * integral g Hg a y)).
    + apply integral_derivable.
    + apply (derivable_pt_lim_scal (integral g Hg a) k).
      apply integral_derivable.
Qed.

(* ------------------------------------------------------------------ *)

Lemma integral_scal (g kg : R -> R) (k : R)
      (Hg : continuity g) (Hkg : continuity kg) (a b : R) :
  (forall t, kg t = k * g t) ->
  integral kg Hkg a b = k * integral g Hg a b.
Proof.
  intros Heq.
  rewrite (integral_antiderivative kg Hkg (fun y => k * integral g Hg a y)).
  - rewrite integral_refl. ring.
  - intros x. rewrite Heq.
    apply (derivable_pt_lim_scal (integral g Hg a) k), integral_derivable.
Qed.

(** The substitution [s = x * t] in [Egauss x]. *)
Lemma nonneg_derivative_from_0 (D d : R -> R) (v : R) :
  0 <= v ->
  (forall c, 0 <= c <= v -> derivable_pt_lim D c (d c)) ->
  (forall c, 0 <= c <= v -> 0 <= d c) ->
  D 0 <= D v.
Proof.
  intros [Hv | <-] HD Hd; [| right; reflexivity].
  destruct (MVT_cor2 D d 0 v Hv HD) as (c & Hc & Hin).
  assert (0 <= d c) by (apply Hd; lra). nra.
Qed.

(** Terms and partial sums of the series of [exp (- v)]. *)
Lemma Rabs_le_between (x a : R) : Rabs x <= a -> - a <= x <= a.
Proof.
  intros H. pose proof (Rle_abs x). pose proof (Rle_abs (- x)) as H1.
  rewrite Rabs_Ropp in H1. lra.
Qed.

Lemma exp_second_order (y : R) :
  Rabs y <= 1 / 2 -> Rabs (exp y - 1 - y) <= 2 * (y * y).
Proof.
  intros Hy. apply Rabs_le_between in Hy.
  pose proof (exp_ineq1_le y) as Hlo.
  pose proof (exp_ineq1_le (- y)) as Hneg.
  pose proof (exp_pos y) as Hp.
  assert (Hinv : exp y * exp (- y) = 1).
  { rewrite <- exp_plus. replace (y + - y) with 0 by ring. apply exp_0. }
  apply Rabs_le. split; [nra |].
  assert (H1 : exp y * (1 - y) <= 1) by nra.
  nra.
Qed.

Lemma exp_le (x y : R) : x <= y -> exp x <= exp y.
Proof.
  intros [H | ->]; [left; apply exp_increasing, H | right; reflexivity].
Qed.

(** The remainder of the first-order expansion of [kern] in its parameter. *)
(* ================================================================== *)
(** * The error function: value at 0, symmetry, monotonicity *)
(* ================================================================== *)

Lemma Egauss_derivable (x : R) : derivable_pt_lim Egauss x (gauss x).
Proof. apply integral_derivable. Qed.

Lemma Egauss_0 : Egauss 0 = 0.
Proof. apply integral_refl. Qed.

Lemma gauss_even (t : R) : gauss (- t) = gauss t.
Proof. unfold gauss; f_equal; ring. Qed.

Lemma gauss_pos (t : R) : 0 < gauss t.
Proof. apply exp_pos. Qed.

Lemma Egauss_odd (x : R) : Egauss (- x) = - Egauss x.
Proof.
  assert (HD : forall y, derivable_pt_lim (fun t => Egauss t + Egauss (- t)) y 0).
  { intros y.
    replace 0 with (gauss y + gauss (- y) * (-1)) by (rewrite gauss_even; ring).
    apply (derivable_pt_lim_plus Egauss (fun t => Egauss (- t))).
    - apply Egauss_derivable.
    - apply (derivable_pt_lim_comp (fun t => - t) Egauss).
      + replace (-1) with (- (1)) by ring.
        apply (derivable_pt_lim_opp id), derivable_pt_lim_id.
      + apply Egauss_derivable. }
  pose proof (zero_derivative_constant _ HD x 0) as H; simpl in H.
  rewrite Ropp_0, Egauss_0 in H. lra.
Qed.

Lemma Egauss_increasing (a b : R) : a < b -> Egauss a < Egauss b.
Proof.
  intros Hab.
  destruct (MVT_cor2 Egauss gauss a b Hab) as (c & Hc & _).
  { intros; apply Egauss_derivable. }
  pose proof (gauss_pos c). nra.
Qed.

(* ------------------------------------------------------------------ *)
(** The bound [Egauss x ^ 2 < PI / 4]. *)
(* ================================================================== *)
(** * The error function stays inside (-1, 1) *)
(* ================================================================== *)

Lemma kern_rem_continuity (u h : R) : continuity (kern_rem u h).
Proof. unfold kern_rem, kern, dkern; reg; intros; nra. Qed.

Lemma kern_rem_bound (u h t : R) :
  Rabs h <= 1 / 4 -> 0 <= t <= 1 ->
  Rabs (kern_rem u h t) <= 8 * exp (2 * Rabs u) * (h * h).
Proof.
  intros Hh Ht.
  set (c := 1 + t * t).
  assert (Hc : 1 <= c <= 2) by (unfold c; nra).
  assert (Hrem : kern_rem u h t
                 = exp (- (u * c)) / c * (exp (- (h * c)) - 1 - - (h * c))).
  { unfold kern_rem, kern, dkern; fold c.
    replace (- ((u + h) * c)) with (- (u * c) + - (h * c)) by ring.
    rewrite exp_plus. field. lra. }
  rewrite Hrem, Rabs_mult.
  apply Rabs_le_between in Hh.
  assert (Hy : Rabs (- (h * c)) <= 1 / 2).
  { apply Rabs_le. nra. }
  pose proof (exp_second_order _ Hy) as H2.
  assert (H1 : Rabs (exp (- (u * c)) / c) <= exp (2 * Rabs u)).
  { pose proof (exp_pos (- (u * c))) as Hp.
    rewrite Rabs_pos_eq.
    - apply Rle_trans with (exp (- (u * c))).
      + apply Rmult_le_reg_r with c; [lra |].
        unfold Rdiv; rewrite Rmult_assoc, Rinv_l by lra. nra.
      + apply exp_le.
        pose proof (Rle_abs u). pose proof (Rle_abs (- u)) as Hn.
        rewrite Rabs_Ropp in Hn. pose proof (Rabs_pos u). nra.
    - apply Rmult_le_pos; [lra |]. left; apply Rinv_0_lt_compat; lra. }
  pose proof (Rabs_pos (exp (- (u * c)) / c)).
  pose proof (Rabs_pos (exp (- (h * c)) - 1 - - (h * c))).
  pose proof (exp_pos (2 * Rabs u)).
  assert (Hsq : 2 * (- (h * c) * - (h * c)) <= 8 * (h * h)).
  { assert (Hcc : c * c <= 4) by nra.
    assert (Hh2 : 0 <= h * h) by nra.
    pose proof (Rmult_le_compat_l _ _ _ Hh2 Hcc). nra. }
  apply Rle_trans with (exp (2 * Rabs u) * (8 * (h * h))); [| lra].
  apply Rmult_le_compat; lra.
Qed.

Lemma Gt_derivable (u : R) : derivable_pt_lim Gt u (- Bt u).
Proof.
  intros eps Heps.
  set (M := 8 * exp (2 * Rabs u)).
  assert (HM : 0 < M) by (unfold M; pose proof (exp_pos (2 * Rabs u)); lra).
  assert (Hd : 0 < Rmin (1 / 4) (eps / M)).
  { apply Rmin_pos; [lra | apply Rdiv_lt_0_compat; assumption]. }
  exists (mkposreal _ Hd); simpl.
  intros h Hh0 Hh.
  assert (Hh4 : Rabs h < 1 / 4) by (eapply Rlt_le_trans; [exact Hh | apply Rmin_l]).
  assert (HhM : Rabs h < eps / M) by (eapply Rlt_le_trans; [exact Hh | apply Rmin_r]).
  assert (Hint : integral (kern_rem u h) (kern_rem_continuity u h) 0 1
                 = Gt (u + h) - Gt u + h * Bt u).
  { assert (Hc1 : continuity (fun t => kern (u + h) t + -1 * kern u t)).
    { unfold kern; reg; intros; nra. }
    rewrite (integral_linear _ (dkern u) (kern_rem u h) h Hc1
               (dkern_continuity u) (kern_rem_continuity u h))
      by reflexivity.
    rewrite (integral_linear (kern (u + h)) (kern u) _ (-1)
               (kern_continuity (u + h)) (kern_continuity u) Hc1)
      by reflexivity.
    unfold Gt, Bt. ring. }
  destruct (integral_mean_value _ (kern_rem_continuity u h) 0 1 Rlt_0_1)
    as (xi & Hxi & Hmv).
  assert (Hk : kern_rem u h xi = Gt (u + h) - Gt u + h * Bt u)
    by (rewrite <- Hint, Hmv; ring).
  replace ((Gt (u + h) - Gt u) / h - - Bt u)
    with (kern_rem u h xi / h) by (rewrite Hk; field; exact Hh0).
  unfold Rdiv. rewrite Rabs_mult, Rabs_inv.
  pose proof (kern_rem_bound u h xi (Rlt_le _ _ Hh4)
                (conj (Rlt_le _ _ (proj1 Hxi)) (Rlt_le _ _ (proj2 Hxi)))) as Hb.
  fold M in Hb.
  assert (Hhpos : 0 < Rabs h) by (apply Rabs_pos_lt, Hh0).
  assert (Hhh : h * h = Rabs h * Rabs h).
  { rewrite <- Rabs_mult. symmetry. apply Rabs_pos_eq. nra. }
  rewrite Hhh in Hb.
  apply Rle_lt_trans with (M * Rabs h).
  - apply Rmult_le_reg_r with (Rabs h); [exact Hhpos |].
    rewrite Rmult_assoc, Rinv_l by lra. lra.
  - apply Rmult_lt_reg_r with (/ M); [apply Rinv_0_lt_compat, HM |].
    replace (M * Rabs h * / M) with (Rabs h) by (field; lra).
    exact HhM.
Qed.

Lemma Bt_Egauss (x : R) : x * Bt (x * x) = gauss x * Egauss x.
Proof.
  assert (Hc : continuity (fun t => x * dkern (x * x) t))
    by (unfold dkern; reg).
  unfold Bt.
  rewrite <- (integral_scal (dkern (x * x)) _ x (dkern_continuity (x * x)) Hc)
    by reflexivity.
  rewrite (integral_antiderivative _ Hc (fun s => gauss x * Egauss (x * s))).
  - rewrite Rmult_0_r, Rmult_1_r, Egauss_0. ring.
  - intros s.
    replace (x * dkern (x * x) s) with (gauss x * (gauss (x * s) * x)).
    + apply (derivable_pt_lim_scal (fun s => Egauss (x * s)) (gauss x)).
      apply (derivable_pt_lim_comp (fun s => x * s) Egauss).
      * pose proof (derivable_pt_lim_scal id x s 1 (derivable_pt_lim_id s))
          as Hlin.
        rewrite Rmult_1_r in Hlin. exact Hlin.
      * apply Egauss_derivable.
    + unfold gauss, dkern.
      replace (- (x * x * (1 + s * s)))
        with (- (x * x) + - (x * s * (x * s))) by ring.
      rewrite exp_plus. ring.
Qed.

Lemma Gt_0 : Gt 0 = PI / 4.
Proof.
  unfold Gt.
  rewrite (integral_antiderivative _ (kern_continuity 0) atan).
  - rewrite atan_1, atan_0. ring.
  - intros x.
    replace (kern 0 x) with (/ (1 + x ^ 2)).
    + apply derivable_pt_lim_atan.
    + unfold kern. rewrite Rmult_0_l, Ropp_0, exp_0. field. nra.
Qed.

Lemma Gt_pos (u : R) : 0 < Gt u.
Proof.
  unfold Gt.
  destruct (integral_mean_value _ (kern_continuity u) 0 1 Rlt_0_1)
    as (xi & _ & ->).
  rewrite Rminus_0_r, Rmult_1_r. unfold kern.
  apply Rdiv_lt_0_compat; [apply exp_pos | nra].
Qed.

(** Laplace's identity. *)
Lemma Egauss_sqr (x : R) : Egauss x * Egauss x + Gt (x * x) = PI / 4.
Proof.
  assert (HD : forall y,
             derivable_pt_lim (fun t => Egauss t * Egauss t + Gt (t * t)) y 0).
  { intros y.
    replace 0 with ((gauss y * Egauss y + Egauss y * gauss y)
                    + - Bt (y * y) * (1 * y + y * 1))
      by (pose proof (Bt_Egauss y); nra).
    apply (derivable_pt_lim_plus (fun t => Egauss t * Egauss t)
             (fun t => Gt (t * t))).
    - apply (derivable_pt_lim_mult Egauss Egauss); apply Egauss_derivable.
    - apply (derivable_pt_lim_comp (fun t => t * t) Gt).
      + apply (derivable_pt_lim_mult id id); apply derivable_pt_lim_id.
      + apply Gt_derivable. }
  pose proof (zero_derivative_constant _ HD x 0) as H; simpl in H.
  rewrite H, Egauss_0, Rmult_0_l, Gt_0. ring.
Qed.

Lemma Egauss_sqr_bound (x : R) : Egauss x * Egauss x < PI / 4.
Proof.
  pose proof (Egauss_sqr x). pose proof (Gt_pos (x * x)). lra.
Qed.

Lemma erf_bound (x : R) : -1 < erf x < 1.
Proof.
  pose proof (Egauss_sqr_bound x) as Hb.
  assert (Hpi : 0 < sqrt PI) by (apply sqrt_lt_R0, PI_RGT_0).
  assert (Hsq : sqrt PI * sqrt PI = PI) by (apply sqrt_sqrt; left; apply PI_RGT_0).
  assert (He : erf x * sqrt PI = 2 * Egauss x).
  { unfold erf, Egauss. field. lra. }
  assert (Hlt : (erf x * sqrt PI) * (erf x * sqrt PI) < sqrt PI * sqrt PI).
  { rewrite He, Hsq. lra. }
  assert (H1 : - sqrt PI < erf x * sqrt PI < sqrt PI) by (split; nra).
  split; apply Rmult_lt_reg_r with (sqrt PI); lra.
Qed.

(* ------------------------------------------------------------------ *)
(** Numerical enclosure of the integral. *)

(** A function with a non-negative derivative on [0, v] does not decrease
    from 0 to v. *)
(* ================================================================== *)
(** * Numerical enclosure of the distribution function *)
(* ================================================================== *)

Lemma eterm_derivable (k : nat) (v : R) :
  derivable_pt_lim (eterm (S k)) v (- eterm k v).
Proof.
  induction k as [| k IH].
  - simpl.
    apply (derivable_pt_lim_locally_ext (fun v => - v) _ v (v - 1) (v + 1));
      [lra | intros; field |].
    replace (- (1)) with (- 1) by ring.
    apply (derivable_pt_lim_opp id), derivable_pt_lim_id.
  - assert (Hn : INR (S k) <> 0) by (apply not_0_INR; discriminate).
    assert (Hn' : INR (S (S k)) <> 0) by (apply not_0_INR; discriminate).
    change (eterm (S (S k)))
      with (fun v => eterm (S k) v * (- v) / INR (S (S k))).
    replace (- eterm (S k) v)
      with (/ INR (S (S k)) * (- eterm k v * (- v) + eterm (S k) v * (- 1))).
    + apply (derivable_pt_lim_locally_ext
               (fun v => / INR (S (S k)) * (eterm (S k) v * (- v)))
               _ v (v - 1) (v + 1)); [lra | intros; field; exact Hn' |].
      apply (derivable_pt_lim_scal (fun v => eterm (S k) v * (- v))).
      apply (derivable_pt_lim_mult (eterm (S k)) (fun v => - v)).
      * exact IH.
      * apply (derivable_pt_lim_opp id), derivable_pt_lim_id.
    + rewrite (S_INR (S k)) in *.
      change (eterm (S k) v) with (eterm k v * (- v) / INR (S k)).
      field. split; assumption.
Qed.

Lemma esum_derivable (n : nat) (v : R) :
  derivable_pt_lim (esum (S n)) v (- esum n v).
Proof.
  induction n as [| n IH].
  - change (esum 1) with (fun v => 1 + eterm 1 v).
    replace (- esum 0 v) with (0 + - eterm 0 v) by (simpl; ring).
    apply (derivable_pt_lim_plus (fun _ => 1) (eterm 1)).
    + apply derivable_pt_lim_const.
    + apply eterm_derivable.
  - change (esum (S (S n))) with (fun v => esum (S n) v + eterm (S (S n)) v).
    replace (- esum (S n) v) with (- esum n v + - eterm (S n) v)
      by (simpl; ring).
    apply (derivable_pt_lim_plus (esum (S n)) (eterm (S (S n)))).
    + exact IH.
    + apply eterm_derivable.
Qed.

Lemma eterm_0 (k : nat) : eterm (S k) 0 = 0.
Proof. simpl. unfold Rdiv. rewrite Ropp_0. ring. Qed.

Lemma esum_0 (n : nat) : esum n 0 = 1.
Proof.
  induction n as [| n IH]; [reflexivity |].
  change (esum (S n) 0) with (esum n 0 + eterm (S n) 0).
  rewrite IH, eterm_0. ring.
Qed.

(** The partial sums alternate around [exp (- v)] for [v >= 0]. *)
Lemma esum_alternates (n : nat) (v : R) :
  0 <= v -> 0 <= (-1) ^ n * (esum n v - exp (- v)).
Proof.
  revert v; induction n as [| n IH]; intros v Hv.
  - simpl. assert (exp (- v) <= 1) by (rewrite <- exp_0; apply exp_le; lra). lra.
  - set (D := fun c => (-1) ^ S n * (esum (S n) c - exp (- c))).
    assert (H0 : D 0 = 0).
    { unfold D. rewrite esum_0, Ropp_0, exp_0. ring. }
    change (0 <= D v). rewrite <- H0.
    apply (nonneg_derivative_from_0 D
             (fun c => (-1) ^ n * (esum n c - exp (- c)))); [exact Hv | |].
    + intros c _. unfold D.
      replace ((-1) ^ n * (esum n c - exp (- c)))
        with ((-1) ^ S n * (- esum n c - exp (- c) * (- 1)))
        by (change ((-1) ^ S n) with (-1 * (-1) ^ n); ring).
      apply (derivable_pt_lim_scal
               (fun c => esum (S n) c - exp (- c)) ((-1) ^ S n)).
      apply (derivable_pt_lim_minus (esum (S n)) (fun c => exp (- c))).
      * apply esum_derivable.
      * apply (derivable_pt_lim_comp (fun c => - c) exp).
        -- apply (derivable_pt_lim_opp id), derivable_pt_lim_id.
        -- apply derivable_pt_lim_exp.
    + intros c Hc. apply IH; lra.
Qed.

(** The unnormalised standard normal density and its integral from 0. *)
Lemma half_square_derivable (s : R) :
  derivable_pt_lim (fun s => s * s / 2) s s.
Proof.
  replace s with (/ 2 * (1 * s + s * 1)) at 2 by field.
  apply (derivable_pt_lim_locally_ext (fun s => / 2 * (s * s)) _ s (s - 1) (s + 1));
    [lra | intros; field |].
  apply (derivable_pt_lim_scal (fun s => s * s)).
  apply (derivable_pt_lim_mult id id); apply derivable_pt_lim_id.
Qed.

Lemma W_Egauss (z : R) : W z = sqrt 2 * Egauss (z / sqrt 2).
Proof.
  assert (H2 : 0 < sqrt 2) by (apply sqrt_lt_R0; lra).
  assert (Hsq : sqrt 2 * sqrt 2 = 2) by (apply sqrt_sqrt; lra).
  unfold W.
  rewrite (integral_antiderivative _ bell_continuity
             (fun s => sqrt 2 * Egauss (s / sqrt 2))).
  - unfold Rdiv at 2. rewrite Rmult_0_l, Egauss_0. ring.
  - intros s.
    replace (bell s) with (sqrt 2 * (gauss (s / sqrt 2) * / sqrt 2)).
    + apply (derivable_pt_lim_scal (fun s => Egauss (s / sqrt 2))).
      apply (derivable_pt_lim_comp (fun s => s / sqrt 2) Egauss).
      * pose proof (derivable_pt_lim_scal id (/ sqrt 2) s 1
                      (derivable_pt_lim_id s)) as Hlin.
        rewrite Rmult_1_r in Hlin.
        apply (derivable_pt_lim_locally_ext (mult_real_fct (/ sqrt 2) id)
                 _ s (s - 1) (s + 1));
          [lra | intros; unfold mult_real_fct, id; field; lra | exact Hlin].
      * apply Egauss_derivable.
    + unfold gauss, bell.
      replace (s / sqrt 2 * (s / sqrt 2)) with (s * s / (sqrt 2 * sqrt 2))
        by (field; lra).
      rewrite Hsq. field. lra.
Qed.

Lemma Phi_W (z : R) : Phi z = 0.5 + W z * / (sqrt 2 * sqrt PI).
Proof.
  assert (H2 : 0 < sqrt 2) by (apply sqrt_lt_R0; lra).
  assert (Hpi : 0 < sqrt PI) by (apply sqrt_lt_R0, PI_RGT_0).
  assert (Hsq : sqrt 2 * sqrt 2 = 2) by (apply sqrt_sqrt; lra).
  unfold Phi, erf. fold (Egauss (z / sqrt 2)).
  rewrite W_Egauss.
  replace 0.5 with (/ 2) by lra. field. lra.
Qed.

(** Term-by-term antiderivative of [esum n (s * s / 2)]. *)
Lemma wterm_derivable (k : nat) (s : R) :
  derivable_pt_lim (wterm k) s (eterm k (s * s / 2)).
Proof.
  destruct k as [| k].
  - apply (derivable_pt_lim_locally_ext id _ s (s - 1) (s + 1));
      [lra | intros; unfold wterm, id; simpl; field |].
    apply derivable_pt_lim_id.
  - assert (Hn : INR (S k) <> 0) by (apply not_0_INR; discriminate).
    assert (Hd : 2 * INR (S k) + 1 <> 0)
      by (pose proof (pos_INR (S k)); lra).
    apply (derivable_pt_lim_locally_ext
             (fun s => / (2 * INR (S k) + 1) * (eterm (S k) (s * s / 2) * s))
             _ s (s - 1) (s + 1));
      [lra | intros; unfold wterm; field; exact Hd |].
    replace (eterm (S k) (s * s / 2))
      with (/ (2 * INR (S k) + 1)
            * (- eterm k (s * s / 2) * s * s + eterm (S k) (s * s / 2) * 1)).
    + apply (derivable_pt_lim_scal (fun s => eterm (S k) (s * s / 2) * s)).
      apply (derivable_pt_lim_mult (fun s => eterm (S k) (s * s / 2)) id).
      * apply (derivable_pt_lim_comp (fun s => s * s / 2) (eterm (S k))).
        -- apply half_square_derivable.
        -- apply eterm_derivable.
      * apply derivable_pt_lim_id.
    + change (eterm (S k) (s * s / 2))
        with (eterm k (s * s / 2) * (- (s * s / 2)) / INR (S k)).
      field. split; assumption.
Qed.

Lemma wsum_derivable (n : nat) (s : R) :
  derivable_pt_lim (wsum n) s (esum n (s * s / 2)).
Proof.
  induction n as [| n IH].
  - apply wterm_derivable.
  - change (wsum (S n)) with (fun s => wsum n s + wterm (S n) s).
    change (esum (S n) (s * s / 2))
      with (esum n (s * s / 2) + eterm (S n) (s * s / 2)).
    apply (derivable_pt_lim_plus (wsum n) (wterm (S n)));
      [exact IH | apply wterm_derivable].
Qed.

Lemma wsum_0 (n : nat) : wsum n 0 = 0.
Proof.
  induction n as [| n IH].
  - unfold wsum, wterm. unfold Rdiv. ring.
  - change (wsum (S n) 0) with (wsum n 0 + wterm (S n) 0).
    rewrite IH. unfold wterm, Rdiv. ring.
Qed.

(** The polynomials [wsum n] alternate around the integral. *)
Lemma wsum_alternates (n : nat) (z : R) :
  0 <= z -> 0 <= (-1) ^ n * (wsum n z - W z).
Proof.
  intros Hz.
  set (D := fun s => (-1) ^ n * (wsum n s - W s)).
  assert (H0 : D 0 = 0).
  { unfold D, W. rewrite wsum_0, integral_refl. ring. }
  change (0 <= D z). rewrite <- H0.
  apply (nonneg_derivative_from_0 D
           (fun s => (-1) ^ n * (esum n (s * s / 2) - exp (- (s * s / 2)))));
    [exact Hz | |].
  - intros s _. unfold D.
    apply (derivable_pt_lim_scal (fun s => wsum n s - W s)).
    apply (derivable_pt_lim_minus (wsum n) W).
    + apply wsum_derivable.
    + apply (integral_derivable bell bell_continuity 0 s).
  - intros s _. apply esum_alternates. nra.
Qed.

(** ** The worked example *)

Lemma F2R_z_out : F2R z_out = 5340612184491134 / 4503599627370496.
Proof. unfold z_out; unfold_doubles. reflexivity. Qed.

Lemma W_z_upper : W (F2R z_out) < 0.957933169933594263267.
Proof.
  rewrite F2R_z_out.
  set (x := 5340612184491134 / 4503599627370496).
  assert (Hx : 0 <= x) by (unfold x; lra).
  pose proof (wsum_alternates 18 x Hx) as H.
  replace ((-1) ^ 18) with 1 in H by (simpl; ring).
  apply Rle_lt_trans with (wsum 18 x); [lra |].
  clear H Hx. unfold x.
  cbn [wsum]; unfold wterm; cbn [eterm INR].
  lra.
Qed.

Lemma W_z_lower : 0.9579331699335942632666 < W (F2R z_out).
Proof.
  rewrite F2R_z_out.
  set (x := 5340612184491134 / 4503599627370496).
  assert (Hx : 0 <= x) by (unfold x; lra).
  pose proof (wsum_alternates 19 x Hx) as H.
  replace ((-1) ^ 19) with (-1) in H by (simpl; ring).
  apply Rlt_le_trans with (wsum 19 x); [| lra].
  clear H Hx. unfold x.
  cbn [wsum]; unfold wterm; cbn [eterm INR].
  lra.
Qed.

Lemma PI_enclosure : 3.14159265358979323846 < PI < 3.14159265358979323847.
Proof.
  pose proof (PI_2_3_7_ineq 11) as H.
  unfold PI_2_3_7_tg, tg_alt, Ratan_seq in H.
  cbn -[Rmult Rplus Rinv Rdiv Ropp IZR PI Rle] in H.
  lra.
Qed.

(** The normalising factor [1 / sqrt (2 * PI)]. *)
Lemma inv_sqrt_2PI_enclosure :
  0.3989422804014326779 < / (sqrt 2 * sqrt PI) < 0.3989422804014326780.
Proof.
  pose proof PI_enclosure as [Hl Hu].
  assert (H2 : 0 < sqrt 2) by (apply sqrt_lt_R0; lra).
  assert (Hpi : 0 < sqrt PI) by (apply sqrt_lt_R0, PI_RGT_0).
  assert (Hsq2 : sqrt 2 * sqrt 2 = 2) by (apply sqrt_sqrt; lra).
  assert (Hsqp : sqrt PI * sqrt PI = PI) by (apply sqrt_sqrt; lra).
  set (r := sqrt 2 * sqrt PI).
  assert (Hr : 0 < r) by (apply Rmult_lt_0_compat; assumption).
  assert (Hrr : r * r = 2 * PI).
  { unfold r.
    replace (sqrt 2 * sqrt PI * (sqrt 2 * sqrt PI))
      with (sqrt 2 * sqrt 2 * (sqrt PI * sqrt PI)) by ring.
    rewrite Hsq2, Hsqp. reflexivity. }
  assert (Hlo : 2.5066282746310005024 < r) by nra.
  assert (Hhi : r < 2.5066282746310005025) by nra.
  assert (Hinv : r * / r = 1) by (apply Rinv_r; lra).
  assert (Hip : 0 < / r) by (apply Rinv_0_lt_compat, Hr).
  split; nra.
Qed.

Lemma Phi_z_enclosure :
  0.88216004328548122 < Phi (F2R z_out) < 0.88216004328548123.
Proof.
  rewrite Phi_W.
  pose proof W_z_lower as Hwl. pose proof W_z_upper as Hwu.
  pose proof inv_sqrt_2PI_enclosure as [Hil Hiu].
  set (w := W (F2R z_out)) in *. set (i := / (sqrt 2 * sqrt PI)) in *.
  assert (Hlo : 0.9579331699335942632666 * 0.3989422804014326779 < w * i)
    by (apply Rmult_le_0_lt_compat; lra).
  assert (Hhi : w * i < 0.957933169933594263267 * 0.3989422804014326780)
    by (apply Rmult_le_0_lt_compat; lra).
  split; lra.
Qed.

(* ================================================================== *)
(** * Properties of the distribution function and of the p-value *)
(* ================================================================== *)

Lemma erf_0 : erf 0 = 0.
Proof. unfold erf. fold (Egauss 0). rewrite Egauss_0. ring. Qed.

Lemma erf_odd (x : R) : erf (- x) = - erf x.
Proof.
  unfold erf. fold (Egauss (- x)) (Egauss x). rewrite Egauss_odd. ring.
Qed.

Lemma erf_increasing (a b : R) : a < b -> erf a < erf b.
Proof.
  intros Hab. unfold erf. fold (Egauss a) (Egauss b).
  apply Rmult_lt_compat_l; [| apply Egauss_increasing, Hab].
  apply Rdiv_lt_0_compat; [lra | apply sqrt_lt_R0, PI_RGT_0].
Qed.

Lemma Phi_increasing (a b : R) : a < b -> Phi a < Phi b.
Proof.
  intros Hab. unfold Phi.
  assert (H2 : 0 < / sqrt 2) by (apply Rinv_0_lt_compat, sqrt_lt_R0; lra).
  assert (H : erf (a / sqrt 2) < erf (b / sqrt 2)).
  { apply erf_increasing. unfold Rdiv. apply Rmult_lt_compat_r; assumption. }
  lra.
Qed.

(** C2: at the z of the worked example the distribution function is
    0.8821600432854813 to the sixteen digits printed: its exact value is
    within 1e-16 of that decimal, and the double the notebook records for
    [stats.norm.cdf(z)] is the double nearest to it.  Cell 7 subtracts that
    double from 1 and obtains exactly the double printed as
    0.11783995671451875, which is within 1e-16 of [1 - Phi(z)]. *)
Theorem cdf_and_pval_worked_example :
  z = Ok z_out
  /\ Rabs (Phi (F2R z_out) - 0.8821600432854813) < 1 / 10 ^ 16
  /\ Rabs (Phi (F2R z_out) - F2R cdf_out) < half_ulp (-53)
  /\ Rabs (F2R cdf_out - 0.8821600432854813) < half_ulp (-53)
  /\ pval cdf_out = Ok (PyFloat pval_out)
  /\ Rabs (F2R pval_out - 0.11783995671451875) < half_ulp (-56)
  /\ Rabs (p_value (F2R z_out) - 0.11783995671451875) < 1 / 10 ^ 16.
Proof.
  pose proof Phi_z_enclosure as [Hlo Hhi].
  unfold p_value.
  set (p := Phi (F2R z_out)) in *.
  split; [vm_compute; reflexivity |].
  split; [apply Rabs_def1; lra |].
  split; [unfold cdf_out; unfold_doubles; apply Rabs_def1; lra |].
  split; [unfold cdf_out; unfold_doubles; apply Rabs_def1; lra |].
  split; [vm_compute; reflexivity |].
  split; [unfold pval_out; unfold_doubles; apply Rabs_def1; lra |].
  apply Rabs_def1; lra.
Qed.

(** C6: the distribution function is symmetric, [Phi(-z) = 1 - Phi(z)]
    for every real z. *)
Theorem Phi_symmetry (x : R) : Phi (- x) = 1 - Phi x.
Proof.
  unfold Phi.
  replace (- x / sqrt 2) with (- (x / sqrt 2)) by (unfold Rdiv; ring).
  rewrite erf_odd. lra.
Qed.

(** C7: the distribution function is non-decreasing: [Phi(a) <= Phi(b)]
    whenever [a < b] (it is in fact strictly increasing). *)
Theorem Phi_monotone (a b : R) : a < b -> Phi a <= Phi b.
Proof. intros Hab. left. apply Phi_increasing, Hab. Qed.

Lemma Phi_monotone_witness : Phi 0 <= Phi 1.
Proof. apply (Phi_monotone 0 1). lra. Defined.

Lemma Phi_range (x : R) : 0 < Phi x < 1.
Proof. unfold Phi. pose proof (erf_bound (x / sqrt 2)). lra. Qed.

(** C8: [Phi(0) = 0.5] exactly, and every value of the distribution
    function lies strictly between 0 and 1. *)
Theorem Phi_at_0_and_range :
  Phi 0 = 0.5 /\ forall x : R, 0 < Phi x < 1.
Proof.
  split.
  - unfold Phi.
    replace (0 / sqrt 2) with 0 by (unfold Rdiv; ring).
    rewrite erf_0. lra.
  - exact Phi_range.
Qed.

(** C9: the right-tailed p-value [1 - Phi(z)] lies in [0, 1] for every
    real z; and in the notebook's doubles, whenever the value cell 7
    receives from [stats.norm.cdf] is a double in [0, 1], the p-value it
    computes is a double in [0, 1]. *)
Theorem p_value_range :
  (forall x : R, 0 <= p_value x <= 1)
  /\ (forall c : spec_float,
        valid_binary prec emax c = true ->
        SFleb (S754_zero false) c = true -> SFleb c one = true ->
        exists p : spec_float,
          pval c = Ok (PyFloat p)
          /\ SFleb (S754_zero false) p = true /\ SFleb p one = true).
Proof.
  split.
  - intros x. unfold p_value. pose proof (Phi_range x). lra.
  - exact pval_unit_interval.
Qed.

Lemma p_value_range_witness :
  exists p : spec_float,
    pval cdf_out = Ok (PyFloat p)
    /\ SFleb (S754_zero false) p = true /\ SFleb p one = true.
Proof.
  apply (proj2 p_value_range cdf_out); reflexivity.
Defined.
